(** * AM demodulation pipeline of [audio-folder/fft2.py]

    A shallow embedding of the signal-processing functions of [fft2.py]
    ([load_audio], [analyze_spectrum], [find_carrier_frequency],
    [demodulate_am], [apply_bandpass_filter], [save_audio]) and the
    properties of them that the specification states.

    Number model.  Python [int]s and integer PCM codes are [Z].  A [float64]
    is idealised as a real number ([R]): in this first model rounding is
    left out and there is no NaN or infinity among the values.  Wherever
    the program could create one (a division by zero) the embedding
    makes that outcome explicit instead of giving it a real value.  Array
    functions of numpy that work for every dtype ([argmax], comparison
    with a scalar) are written once over a [Dtype] interface and
    instantiated at [bool], [Z], [R] and binary64; the [Z] instance
    computes.

    Where a statement depends on the rounding of double-precision
    arithmetic (the frequency bins, the round trip through a file), the
    computation is modelled a second time, each float operation followed
    by a rounding function [rnd] of which only the error bound, the
    monotonicity and the exactness on integers of IEEE 754
    round-to-nearest are assumed ([rounding]); these statements hold for
    every such function.  Concrete runs are evaluated bit for bit with
    Rocq's primitive binary64 floats ([f64]).

    Plotting and printing have no effect on the returned values and are
    left out.  [plt.plot] raises when its two arrays differ in length:
    that is modelled in [compare_signals], where the second array is an
    argument of the caller; the results on [find_carrier_frequency] are
    about frequencies and magnitudes of one length, as a spectrum has
    them. *)

From Stdlib Require Import Floats.
From Stdlib Require Import Reals List ZArith Bool Lia Lra Sorted.
Import ListNotations.

(** ** Exceptions and results *)

(** The Python exceptions the modelled code can raise. *)
Inductive exn : Type :=
| ValueError          (* numpy reduction over an empty array *)
| IndexError          (* index past the end of an array *)
| ZeroDivisionError.  (* Python float division by zero *)

Inductive result (A : Type) : Type :=
| Ok (a : A)
| Raise (e : exn).

Arguments Ok {A} a.
Arguments Raise {A} e.

Definition bind {A B : Type} (m : result A) (k : A -> result B) : result B :=
  match m with
  | Ok a => k a
  | Raise e => Raise e
  end.

Declare Scope result_scope.
Delimit Scope result_scope with result.
Notation "x <- m ;; k" := (bind m (fun x => k))
  (at level 61, m at next level, right associativity) : result_scope.
Open Scope result_scope.

Definition raises {A : Type} (m : result A) : Prop := exists e, m = Raise e.

(** ** numpy dtypes *)

(** What [argmax] and a comparison with a Python scalar need of an element
    type: the strict order [gtb x y] ([x > y]) and the conversion of a
    Python integer literal. *)
Class Dtype (T : Type) : Type := {
  gtb : T -> T -> bool;
  of_int : Z -> T
}.

(** [gtb] is a strict weak order: what the correctness of [argmax] uses. *)
Class DtypeOrder (T : Type) `{Dtype T} : Prop := {
  gtb_irrefl : forall a, gtb a a = false;
  gtb_trans : forall a b c, gtb a b = true -> gtb b c = true -> gtb a c = true;
  gtb_negtrans : forall a b c,
      gtb a b = false -> gtb b c = false -> gtb a c = false
}.

Arguments DtypeOrder T {_}.

#[export] Instance bool_dtype : Dtype bool :=
  {| gtb := fun x y => x && negb y; of_int := fun z => negb (Z.eqb z 0) |}.

#[export] Instance Z_dtype : Dtype Z :=
  {| gtb := Z.gtb; of_int := fun z => z |}.

Definition Rgtb (x y : R) : bool := if Rlt_dec y x then true else false.

#[export] Instance R_dtype : Dtype R :=
  {| gtb := Rgtb; of_int := IZR |}.

(** ** numpy array functions *)

Module np.

Section Argmax.
Context {T : Type} `{Dtype T}.

(** The scan of numpy's [argmax]: [mp] is the largest element so far,
    [max_ind] its index, [i] the index of the head of [l]; only a strictly
    larger element replaces [mp], so the first maximum wins. *)
Fixpoint argmax_scan (mp : T) (max_ind i : nat) (l : list T) : nat :=
  match l with
  | [] => max_ind
  | x :: l' =>
      if gtb x mp then argmax_scan x i (S i) l'
      else argmax_scan mp max_ind (S i) l'
  end.

(** [np.argmax(a)]; an empty array raises [ValueError]. *)
Definition argmax (a : list T) : result nat :=
  match a with
  | [] => Raise ValueError
  | x :: l => Ok (argmax_scan x 0 1 l)
  end.

(** [a > c] for an array [a] and a Python integer [c]: a boolean array. *)
Definition gt_scalar (a : list T) (c : Z) : list bool :=
  map (fun x => gtb x (of_int c)) a.
End Argmax.

(** [a[i]] for a non-negative index [i]. *)
Definition getitem {T : Type} (a : list T) (i : nat) : result T :=
  match nth_error a i with
  | Some x => Ok x
  | None => Raise IndexError
  end.

End np.

(** ** Carrier detection *)

Section FindCarrier.
Context {F M : Type} `{Dtype F} `{Dtype M}.

(** [find_carrier_frequency(frequencies, magnitudes)], lines 37-56. *)
Definition find_carrier_frequency (frequencies : list F) (magnitudes : list M)
  : result F :=
  start_idx <- np.argmax (np.gt_scalar frequencies 1000) ;;
  rel_idx <- np.argmax (skipn start_idx magnitudes) ;;
  let peak_idx := (rel_idx + start_idx)%nat in
  np.getitem frequencies peak_idx.
End FindCarrier.

(** ** Arrays of floats *)

Open Scope R_scope.

(** A [float64] array as the number model sees it: either all its elements
    are finite numbers, or it is the result of a division by a zero scalar,
    in which case none of its [n] elements is finite (each is NaN or an
    infinity), and no later elementwise operation of this program makes
    one finite again. *)
Inductive floats : Type :=
| Finite (a : list R)
| NotFinite (n : nat).

Definition floats_map (f : R -> R) (a : floats) : floats :=
  match a with
  | Finite l => Finite (map f l)
  | NotFinite n => NotFinite n
  end.

Definition floats_len (a : floats) : nat :=
  match a with
  | Finite l => length l
  | NotFinite n => n
  end.

Module npf.

(** [a / c] for an array [a] and a scalar [c]: numpy raises nothing when
    [c] is zero, every quotient is then NaN or infinite. *)
Definition div_scalar (a : list R) (c : R) : floats :=
  if Req_dec_T c 0 then NotFinite (length a)
  else Finite (map (fun x => x / c) a).

(** [np.arange(n)], as floats. *)
Definition arange (n : nat) : list R := map INR (seq 0 n).

(** [a * b] for two arrays of the same length, the first one finite. *)
Definition mul (a : list R) (b : floats) : floats :=
  match b with
  | Finite l => Finite (map (fun p => fst p * snd p) (combine a l))
  | NotFinite _ => NotFinite (length a)
  end.

(** [np.max(a)]; an empty array raises [ValueError]. *)
Definition max (a : list R) : result R :=
  match a with
  | [] => Raise ValueError
  | x :: l => Ok (fold_left Rmax l x)
  end.

(** [np.mean(a)] of one row. *)
Definition mean (row : list R) : R :=
  fold_right Rplus 0 row / INR (length row).

End npf.

(** Python's [a / b] on two scalars: a zero divisor raises. *)
Definition py_div (a b : R) : result R :=
  if Req_dec_T b 0 then Raise ZeroDivisionError else Ok (a / b).

(** ** The decoded WAV file *)

(** The integer dtypes [scipy.io.wavfile.read] returns: 8-bit PCM is
    unsigned, the wider ones are signed (24-bit PCM comes as [int32]). *)
Inductive int_dtype : Type := uint8 | int16 | int32 | int64.

Inductive dtype_kind : Type := kind_i | kind_u | kind_f.

Definition int_kind (d : int_dtype) : dtype_kind :=
  match d with
  | uint8 => kind_u
  | _ => kind_i
  end.

(** [np.iinfo(d).max] and [np.iinfo(d).min]. *)
Definition iinfo_max (d : int_dtype) : Z :=
  match d with
  | uint8 => 255
  | int16 => 32767
  | int32 => 2147483647
  | int64 => 9223372036854775807
  end.

Definition iinfo_min (d : int_dtype) : Z :=
  match d with
  | uint8 => 0
  | int16 => -32768
  | int32 => -2147483648
  | int64 => -9223372036854775808
  end.

(** Shape of the sample array: one-dimensional for a mono file, one row of
    channel values per frame otherwise. *)
Inductive ndarray (A : Type) : Type :=
| Arr1 (a : list A)
| Arr2 (rows : list (list A)).

Arguments Arr1 {A} a.
Arguments Arr2 {A} rows.

Definition ndarray_map {A B : Type} (f : A -> B) (a : ndarray A) : ndarray B :=
  match a with
  | Arr1 l => Arr1 (map f l)
  | Arr2 rows => Arr2 (map (map f) rows)
  end.

Definition ndarray_all {A : Type} (P : A -> Prop) (a : ndarray A) : Prop :=
  match a with
  | Arr1 l => Forall P l
  | Arr2 rows => Forall (Forall P) rows
  end.

(** What [wavfile.read] returns beside the sample rate. *)
Inductive wav_data : Type :=
| IntData (d : int_dtype) (a : ndarray Z)
| FloatData (a : ndarray R).

Definition data_kind (w : wav_data) : dtype_kind :=
  match w with
  | IntData d _ => int_kind d
  | FloatData _ => kind_f
  end.

(** The file is well formed: every integer code is one of its dtype, and a
    frame of a two-dimensional array has at least two channels. *)
Definition in_dtype (d : int_dtype) (v : Z) : Prop :=
  (iinfo_min d <= v <= iinfo_max d)%Z.

Definition wf_shape {A : Type} (a : ndarray A) : Prop :=
  match a with
  | Arr1 _ => True
  | Arr2 rows => Forall (fun row => (2 <= length row)%nat) rows
  end.

Definition wf_wav (w : wav_data) : Prop :=
  match w with
  | IntData d a => ndarray_all (in_dtype d) a /\ wf_shape a
  | FloatData a => wf_shape a
  end.

(** ** Loader *)

(** Lines 11-12: signed integer data become floats divided by the dtype's
    largest value; other data ([uint8], floats) keep their values. *)
Definition rescale (w : wav_data) : ndarray R :=
  match w with
  | IntData d a =>
      match int_kind d with
      | kind_i => ndarray_map (fun v => IZR v / IZR (iinfo_max d)) a
      | _ => ndarray_map IZR a
      end
  | FloatData a => a
  end.

(** Lines 15-16: a two-dimensional array is averaged along axis 1. *)
Definition to_mono (a : ndarray R) : list R :=
  match a with
  | Arr1 l => l
  | Arr2 rows => map npf.mean rows
  end.

(** [load_audio], on the [(sample_rate, audio_data)] that [wavfile.read]
    decoded from the file. *)
Definition load_audio (file : Z * wav_data) : Z * list R :=
  let (sample_rate, audio_data) := file in
  (sample_rate, to_mono (rescale audio_data)).

(** ** Spectrum analysis *)

(** A complex number, as the coefficients of [np.fft.rfft] are. *)
Record complex : Type := mkC { re : R; im : R }.

Definition Cadd (z w : complex) : complex :=
  mkC (re z + re w) (im z + im w).

(** [x * exp(-i * theta)] for a real [x]. *)
Definition Crot (x theta : R) : complex :=
  mkC (x * cos theta) (- (x * sin theta)).

(** [np.abs] of a complex number. *)
Definition Cabs (z : complex) : R := sqrt (re z * re z + im z * im z).

Module fft.

(** Coefficient [k] of the [n]-point transform, summed over the samples
    [a] that start at index [m]: the sum of
    [a[m] * exp(-2 pi i * m * k / n)] as the numpy manual defines it. *)
Fixpoint dft_from (n k m : nat) (a : list R) (acc : complex) : complex :=
  match a with
  | [] => acc
  | x :: a' =>
      dft_from n k (S m) a'
        (Cadd acc (Crot x (2 * PI * INR m * INR k / INR n)))
  end.

(** [np.fft.rfft(a)]: the coefficients [0 .. n//2] of the transform of a
    real array of [n] samples; numpy refuses [n = 0]. *)
Definition rfft (a : list R) : result (list complex) :=
  let n := length a in
  match n with
  | O => Raise ValueError
  | _ => Ok (map (fun k => dft_from n k 0 a (mkC 0 0)) (seq 0 (n / 2 + 1)))
  end.

(** [np.fft.rfftfreq(n, d)]: [val = 1.0 / (n * d)] is a Python float
    division, [results = arange(0, n // 2 + 1)], the value is
    [results * val]. *)
Definition rfftfreq (n : nat) (d : R) : result (list R) :=
  val <- py_div 1 (INR n * d) ;;
  let results := npf.arange (n / 2 + 1) in
  Ok (map (fun k => k * val) results).

End fft.

(** [analyze_spectrum(signal_data, sample_rate)], lines 20-35;
    [sample_rate] is the Python [int] of the file header. *)
Definition analyze_spectrum (signal_data : list R) (sample_rate : Z)
  : result (list R * list R) :=
  let n := length signal_data in
  d <- py_div 1 (IZR sample_rate) ;;
  frequencies <- fft.rfftfreq n d ;;
  signal_fft <- fft.rfft signal_data ;;
  let magnitudes := map Cabs signal_fft in
  Ok (frequencies, magnitudes).

(** ** Demodulation *)

(** [demodulate_am(signal_data, sample_rate, carrier_freq)], lines 58-88. *)
Definition demodulate_am (signal_data : list R) (sample_rate : Z)
  (carrier_freq : R) : floats :=
  let t := npf.div_scalar (npf.arange (length signal_data)) (IZR sample_rate) in
  let carrier := floats_map (fun ti => cos (2 * PI * carrier_freq * ti)) t in
  let demodulated := npf.mul signal_data carrier in
  demodulated.

(** ** Band-pass filter *)

(** The value of the stage comes from two functions of scipy,
    [signal.butter] and [signal.filtfilt].  They are not part of this
    program: the stage is a program over these two calls, and a library
    gives them a meaning.  A third call, [signal.freqz] in line 98,
    computes the frequency response that is plotted; like the plot it is
    left out. *)
Inductive prog (A : Type) : Type :=
| Done (r : result A)
| Butter (order : Z) (low high : R) (k : list R * list R -> prog A)
| Filtfilt (b a x : list R) (k : list R -> prog A).

Arguments Done {A} r.
Arguments Butter {A} order low high k.
Arguments Filtfilt {A} b a x k.

Record scipy : Type := {
  butter : Z -> R -> R -> result (list R * list R);
  filtfilt : list R -> list R -> list R -> result (list R)
}.

(** Running a program with a library: an exception of a call is not caught
    and ends the program. *)
Fixpoint run {A : Type} (lib : scipy) (p : prog A) : result A :=
  match p with
  | Done r => r
  | Butter order low high k =>
      match butter lib order low high with
      | Ok ba => run lib (k ba)
      | Raise e => Raise e
      end
  | Filtfilt b a x k =>
      match filtfilt lib b a x with
      | Ok y => run lib (k y)
      | Raise e => Raise e
      end
  end.

(** The program ends with an exception before it has called the filter
    design routine. *)
Definition fails_before_design {A : Type} (p : prog A) : Prop :=
  exists e, p = Done (Raise e).

(** [apply_bandpass_filter(signal_data, sample_rate, lowcut, highcut, order)],
    lines 90-110; [lowcut / nyquist] is a Python division.  The frequency
    response that lines 98-108 compute is only plotted. *)
Definition apply_bandpass_filter (signal_data : list R) (sample_rate : Z)
  (lowcut highcut : R) (order : Z) : prog (list R) :=
  let nyquist := 0.5 * IZR sample_rate in
  match py_div lowcut nyquist with
  | Raise e => Done (Raise e)
  | Ok low =>
      match py_div highcut nyquist with
      | Raise e => Done (Raise e)
      | Ok high =>
          Butter order low high (fun ba =>
          Filtfilt (fst ba) (snd ba) signal_data (fun filtered_signal =>
          Done (Ok filtered_signal)))
      end
  end.

(** ** Saving *)

(** The [int16] array given to [wavfile.write]: the codes, or [n] codes
    that numpy leaves unspecified because they are casts of values that
    are not finite. *)
Inductive int16s : Type :=
| Codes (a : list Z)
| Unspecified (n : nat).

(** Rounding towards zero, the cast of a float to an integer. *)
Definition Rtrunc (x : R) : Z :=
  if Rle_dec 0 x then Zfloor x else Zceil x.

(** [a.astype(np.int16)] for an array of floats, each of which lies
    between [-32768] and [32767]. *)
Definition astype_int16 (a : floats) : int16s :=
  match a with
  | Finite l => Codes (map Rtrunc l)
  | NotFinite n => Unspecified n
  end.

(** [save_audio(signal_data, sample_rate, file_path)], lines 134-138: the
    value is what [wavfile.write] receives. *)
Definition save_audio (signal_data : list R) (sample_rate : Z)
  : result (Z * int16s) :=
  peak <- npf.max (map Rabs signal_data) ;;
  let normalized_signal := npf.div_scalar signal_data peak in
  Ok (sample_rate,
      astype_int16 (floats_map (fun x => x * 32767) normalized_signal)).

(** The file [wavfile.write] makes of a one-dimensional [int16] array, as
    [wavfile.read] decodes it again. *)
Definition written_file (saved : Z * int16s) : option (Z * wav_data) :=
  match snd saved with
  | Codes a => Some (fst saved, IntData int16 (Arr1 a))
  | Unspecified _ => None
  end.

(** ** The specification's vocabulary *)

(** The Spectrum of the data model: two sequences of equal length, at least
    one bin, the frequencies in increasing order. *)
Definition spectrum (frequencies magnitudes : list R) : Prop :=
  length frequencies = length magnitudes /\
  frequencies <> [] /\
  StronglySorted Rle frequencies.

(** Bin [i] of a spectrum has frequency [f] and magnitude [m]. *)
Definition bin (frequencies magnitudes : list R) (i : nat) (f m : R) : Prop :=
  nth_error frequencies i = Some f /\ nth_error magnitudes i = Some m.

(** Index [k] holds the first maximum of [a]: nothing in [a] is greater,
    and everything before [k] is smaller. *)
Definition first_max {T : Type} `{Dtype T} (a : list T) (k : nat) : Prop :=
  exists m, nth_error a k = Some m /\
    (forall j x, nth_error a j = Some x -> gtb x m = false) /\
    (forall j x, (j < k)%nat -> nth_error a j = Some x -> gtb m x = true).

(** Coefficient [k] of the discrete Fourier transform of the real signal
    [x], in the words of the specification: the sum over all [m] of
    [x[m] * exp(-2 pi i m k / N)], and its modulus, not divided by [N]. *)
Definition dft_re (x : list R) (k : nat) : R :=
  sum_f_R0 (fun m => nth m x 0 * cos (2 * PI * INR m * INR k / INR (length x)))
    (length x - 1).

Definition dft_im (x : list R) (k : nat) : R :=
  - sum_f_R0 (fun m => nth m x 0 * sin (2 * PI * INR m * INR k / INR (length x)))
      (length x - 1).

Definition dft_modulus (x : list R) (k : nat) : R :=
  sqrt (dft_re x k * dft_re x k + dft_im x k * dft_im x k).

(** A signal without a usable peak: no sample, or only zeros. *)
Definition degenerate (signal_data : list R) : Prop :=
  signal_data = [] \/ Forall (fun x => x = 0) signal_data.

(** The cut-offs of a filter specification respect [0 < low < high < Nyquist]. *)
Definition valid_filter_spec (sample_rate : Z) (lowcut highcut : R) : Prop :=
  0 < lowcut /\ lowcut < highcut /\ highcut < IZR sample_rate / 2.

(** Saving [signal_data] and loading the file again gives [out] at the
    same sample rate. *)
Definition reloads (signal_data : list R) (sample_rate : Z) (out : list R)
  : Prop :=
  exists saved file,
    save_audio signal_data sample_rate = Ok saved /\
    written_file saved = Some file /\
    load_audio file = (sample_rate, out).

(** [p] is the largest absolute value of the samples of a signal. *)
Definition is_peak (signal_data : list R) (p : R) : Prop :=
  (forall x, In x signal_data -> Rabs x <= p) /\
  (exists x, In x signal_data /\ Rabs x = p).

(** ** Auxiliary notions of the further properties *)



(** A stand-in for the library in examples: the filter with the
    coefficients [b = a = [1]], which returns its input. *)
Definition unit_filter : scipy :=
  {| butter := fun _ _ _ => Ok ([1], [1]);
     filtfilt := fun _ _ x => Ok x |}.

(** ** Comparison of two signals *)

(** The first [n] elements of an array of floats, [a[:n]]. *)
Definition floats_firstn (n : nat) (a : floats) : floats :=
  match a with
  | Finite l => Finite (firstn n l)
  | NotFinite m => NotFinite (Nat.min n m)
  end.

(** [plt.plot(x, y)]: the figure is not read back by the program, but
    matplotlib raises [ValueError] when [x] and [y] differ in length.  In
    every other call of the program the two arrays have one length by
    construction; here [y] is an argument of the caller. *)
Definition plt_plot (x : floats) (y : list R) : result unit :=
  if Nat.eqb (floats_len x) (length y) then Ok tt else Raise ValueError.

(** [compare_signals(original, filtered, sample_rate)], lines 112-132. *)
Definition compare_signals (original filtered : list R) (sample_rate : Z)
  : result unit :=
  let t := npf.div_scalar (npf.arange (length original)) (IZR sample_rate) in
  _ <- plt_plot (floats_firstn 1000 t) (firstn 1000 original) ;;
  _ <- plt_plot (floats_firstn 1000 t) (firstn 1000 filtered) ;;
  _ <- analyze_spectrum original sample_rate ;;
  _ <- analyze_spectrum filtered sample_rate ;;
  Ok tt.

(** ** Orchestration *)

(** Sequencing of programs over the library calls. *)
Fixpoint pbind {A B : Type} (p : prog A) (k : A -> prog B) : prog B :=
  match p with
  | Done (Ok a) => k a
  | Done (Raise e) => Done (Raise e)
  | Butter order low high c => Butter order low high (fun ba => pbind (c ba) k)
  | Filtfilt b a x c => Filtfilt b a x (fun y => pbind (c y) k)
  end.

Declare Scope prog_scope.
Delimit Scope prog_scope with prog.
Notation "x <~ m ;; k" := (pbind m (fun x => k))
  (at level 61, m at next level, right associativity) : prog_scope.

(** [main()], lines 140-182, on the decoded content of the input file;
    the value is what [wavfile.write] receives for the output file.  The
    cut-offs 20 Hz and 6000 Hz and the order 5 are the constants of lines
    168-170.  [demodulate_am] gives an array that is not finite only for a
    sample rate of zero, and then [analyze_spectrum], which is the next
    call, raises [ZeroDivisionError] whatever the samples are. *)
Definition main (file : Z * wav_data) : prog (Z * int16s) :=
  (let (sample_rate, audio_data) := load_audio file in
   fm <~ Done (analyze_spectrum audio_data sample_rate) ;;
   let (frequencies, magnitudes) := (fm : list R * list R) in
   carrier_freq <~ Done (find_carrier_frequency frequencies magnitudes) ;;
   match demodulate_am audio_data sample_rate carrier_freq with
   | NotFinite _ => Done (Raise ZeroDivisionError)
   | Finite demodulated_signal =>
       _ <~ Done (analyze_spectrum demodulated_signal sample_rate) ;;
       let lowcut := 20 in
       let highcut := 6000 in
       filtered_signal <~
         apply_bandpass_filter demodulated_signal sample_rate lowcut highcut 5 ;;
       _ <~ Done (compare_signals demodulated_signal filtered_signal
                    sample_rate) ;;
       Done (save_audio filtered_signal sample_rate)
   end)%prog.

(** ** Double precision: the rounding of one operation *)

(** The unit roundoff [2^-53] of binary64, a bound [2^-100] on the error
    of a result in the subnormal range, and the bound [2^200] of the
    range of values in which the results below use the rounding. *)
Definition u : R := / 9007199254740992.
Definition eta : R := / 1267650600228229401496703205376.
Definition big : R :=
  1606938044258990275541962092341162602522202993782792835301376.

(** What is used of the function that rounds a real number to the nearest
    double.  IEEE 754 round-to-nearest has the four properties; so has the
    identity, which is exact arithmetic. *)
Record rounding (rnd : R -> R) : Prop := {
  rnd_rel : forall x,
      / big <= Rabs x <= big -> Rabs (rnd x - x) <= u * Rabs x;
  rnd_abs : forall x,
      Rabs x <= big -> Rabs (rnd x - x) <= u * Rabs x + eta;
  rnd_mono : forall x y,
      Rabs x <= big -> Rabs y <= big -> x <= y -> rnd x <= rnd y;
  rnd_int : forall z : Z,
      (Z.abs z <= 9007199254740992)%Z -> rnd (IZR z) = IZR z
}.

Section Rounded.
Variable rnd : R -> R.

(** Python's [a / b] in double precision: a zero divisor raises, the
    quotient is rounded. *)
Definition py_div_fl (a b : R) : result R :=
  if Req_dec_T b 0 then Raise ZeroDivisionError else Ok (rnd (a / b)).

(** [np.fft.rfftfreq(n, d)] with its three roundings: [n * d],
    [1.0 / (n * d)] and each [k * val].  The integers [n] and [k] become
    doubles without rounding, as integers up to [2^53] do. *)
Definition rfftfreq_fl (n : nat) (d : R) : result (list R) :=
  val <- py_div_fl 1 (rnd (INR n * d)) ;;
  let results := npf.arange (n / 2 + 1) in
  Ok (map (fun k => rnd (k * val)) results).

(** [analyze_spectrum] with the frequencies as double precision computes
    them.  The magnitudes are kept in exact arithmetic: the rounding of
    numpy's transform is not modelled, and the results on this function
    state of the magnitudes their number and their sign only. *)
Definition analyze_spectrum_fl (signal_data : list R) (sample_rate : Z)
  : result (list R * list R) :=
  let n := length signal_data in
  d <- py_div_fl 1 (IZR sample_rate) ;;
  frequencies <- rfftfreq_fl n d ;;
  signal_fft <- fft.rfft signal_data ;;
  let magnitudes := map Cabs signal_fft in
  Ok (frequencies, magnitudes).

(** [a / c] for an array and a scalar, each quotient rounded. *)
Definition div_scalar_fl (a : list R) (c : R) : floats :=
  if Req_dec_T c 0 then NotFinite (length a)
  else Finite (map (fun x => rnd (x / c)) a).

(** [save_audio] with the rounding of its division and of its product;
    the cast truncates the rounded product. *)
Definition save_audio_fl (signal_data : list R) (sample_rate : Z)
  : result (Z * int16s) :=
  peak <- npf.max (map Rabs signal_data) ;;
  let normalized_signal := div_scalar_fl signal_data peak in
  Ok (sample_rate,
      astype_int16 (floats_map (fun x => rnd (x * 32767)) normalized_signal)).

(** [load_audio] on a mono file, with the rounding of line 12: the cast
    of a code to a float, the conversion of the largest value of the dtype
    and the quotient.  A file of more than one channel goes through
    [np.mean], whose roundings are not modelled: no value is given
    for it. *)
Definition load_audio_mono_fl (file : Z * wav_data) : option (Z * list R) :=
  let (sample_rate, audio_data) := file in
  match audio_data with
  | IntData d (Arr1 codes) =>
      match int_kind d with
      | kind_i =>
          Some (sample_rate,
                map (fun v => rnd (rnd (IZR v) / rnd (IZR (iinfo_max d))))
                  codes)
      | _ => Some (sample_rate, map IZR codes)
      end
  | FloatData (Arr1 samples) => Some (sample_rate, samples)
  | _ => None
  end.

(** Saving [signal_data] and loading the file again gives [out] at the
    same sample rate, in double precision. *)
Definition reloads_fl (signal_data : list R) (sample_rate : Z)
  (out : list R) : Prop :=
  exists saved file,
    save_audio_fl signal_data sample_rate = Ok saved /\
    written_file saved = Some file /\
    load_audio_mono_fl file = Some (sample_rate, out).

End Rounded.

(** ** Double precision: concrete runs bit for bit *)

Module f64.

(** The double of a Python integer between [-2^63] and [2^63]. *)
Definition of_Z (z : Z) : float :=
  if Z.ltb z 0 then PrimFloat.opp (PrimFloat.of_uint63 (Uint63.of_Z (- z)))
  else PrimFloat.of_uint63 (Uint63.of_Z z).

Definition of_nat (n : nat) : float := of_Z (Z.of_nat n).

(** The value of a finite double as a fraction, and as a real number. *)
Definition to_frac (x : float) : Z * positive :=
  match Prim2SF x with
  | S754_finite s m e =>
      let m' := if s then Z.neg m else Z.pos m in
      match e with
      | Z.neg e' => (m', Pos.pow 2 e')
      | _ => ((m' * 2 ^ e)%Z, 1%positive)
      end
  | _ => (0%Z, 1%positive)
  end.

Definition to_R (x : float) : R :=
  IZR (fst (to_frac x)) / IZR (Z.pos (snd (to_frac x))).

(** The cast of a finite double to an integer: towards zero. *)
Definition trunc (x : float) : Z :=
  let (a, b) := to_frac x in Z.quot a (Z.pos b).

(** Python's [a / b] on doubles. *)
Definition py_div (a b : float) : result float :=
  if PrimFloat.eqb b 0%float then Raise ZeroDivisionError
  else Ok (PrimFloat.div a b).

(** [np.fft.rfftfreq(n, d)]. *)
Definition rfftfreq (n : nat) (d : float) : result (list float) :=
  val <- py_div 1%float (PrimFloat.mul (of_nat n) d) ;;
  let results := seq 0 (n / 2 + 1) in
  Ok (map (fun k => PrimFloat.mul (of_nat k) val) results).

(** Lines 21-22 of [analyze_spectrum]: the frequencies for a signal of
    [n] samples. *)
Definition frequencies (n : nat) (sample_rate : Z) : result (list float) :=
  d <- py_div 1%float (of_Z sample_rate) ;;
  rfftfreq n d.

(** [np.max(a)] on doubles none of which is a NaN. *)
Definition max (a : list float) : result float :=
  match a with
  | [] => Raise ValueError
  | x :: l => Ok (fold_left (fun m y => if PrimFloat.ltb m y then y else m) l x)
  end.

(** [save_audio] on doubles. *)
Definition save_audio (signal_data : list float) (sample_rate : Z)
  : result (Z * int16s) :=
  peak <- max (map PrimFloat.abs signal_data) ;;
  if PrimFloat.eqb peak 0%float
  then Ok (sample_rate, Unspecified (length signal_data))
  else
    let normalized_signal := map (fun x => PrimFloat.div x peak) signal_data in
    Ok (sample_rate,
        Codes (map (fun x => trunc (PrimFloat.mul x (of_Z 32767)))
                 normalized_signal)).

(** [load_audio] on a mono file of [int16] codes. *)
Definition load_audio_int16 (sample_rate : Z) (codes : list Z)
  : Z * list float :=
  (sample_rate,
   map (fun v => PrimFloat.div (of_Z v) (of_Z (iinfo_max int16))) codes).

End f64.

#[export] Instance float_dtype : Dtype float :=
  {| gtb := fun x y => PrimFloat.ltb y x; of_int := f64.of_Z |}.

(** * Properties *)

(** ** The orders of the dtypes *)

Lemma Rgtb_true (x y : R) : Rgtb x y = true <-> y < x.
Proof.
  unfold Rgtb. destruct (Rlt_dec y x); split; intros; try discriminate; auto.
Qed.

Lemma Rgtb_false (x y : R) : Rgtb x y = false <-> x <= y.
Proof.
  unfold Rgtb. destruct (Rlt_dec y x); split; intros; try discriminate; auto;
    lra.
Qed.

#[export] Instance bool_order : DtypeOrder bool.
Proof.
  split; simpl.
  - now intros [].
  - now intros [] [] [].
  - now intros [] [] [].
Qed.

#[export] Instance Z_order : DtypeOrder Z.
Proof.
  split; simpl; intros; rewrite ?Z.gtb_ltb, ?Z.ltb_lt, ?Z.ltb_ge in *; lia.
Qed.

#[export] Instance R_order : DtypeOrder R.
Proof.
  split; simpl; intros; rewrite ?Rgtb_true, ?Rgtb_false in *; lra.
Qed.

(** Decides the comparisons of concrete reals that a goal contains. *)
Ltac decide_Rgtb :=
  repeat match goal with
         | |- context [Rgtb ?a ?b] =>
             first [ rewrite (proj2 (Rgtb_true a b)) by lra
                   | rewrite (proj2 (Rgtb_false a b)) by lra ]
         end.

(** ** [argmax] returns the first maximum *)

Section ArgmaxFacts.
Context {T : Type} `{DtypeOrder T}.

Lemma argmax_scan_first_max (l p : list T) (mp : T) (max_ind : nat) :
  nth_error p max_ind = Some mp ->
  (forall j x, nth_error p j = Some x -> gtb x mp = false) ->
  (forall j x, (j < max_ind)%nat -> nth_error p j = Some x -> gtb mp x = true) ->
  first_max (p ++ l) (np.argmax_scan mp max_ind (length p) l).
Proof.
  revert p mp max_ind.
  induction l as [|x l IH]; intros p mp max_ind Hmp Hmax Hfirst; simpl.
  - rewrite app_nil_r. exists mp. auto.
  - replace (p ++ x :: l) with ((p ++ [x]) ++ l)
      by now rewrite <- app_assoc.
    replace (S (length p)) with (length (p ++ [x]))
      by (rewrite length_app; simpl; lia).
    assert (Hlast : nth_error (p ++ [x]) (length p) = Some x).
    { rewrite nth_error_app2 by lia. now rewrite Nat.sub_diag. }
    assert (Hsplit : forall j y, nth_error (p ++ [x]) j = Some y ->
               nth_error p j = Some y \/ (j = length p /\ y = x)).
    { intros j y Hj. destruct (Nat.lt_ge_cases j (length p)) as [Hlt|Hge].
      - left. now rewrite nth_error_app1 in Hj.
      - right. rewrite nth_error_app2 in Hj by lia.
        destruct (j - length p)%nat as [|d] eqn:Hd; simpl in Hj.
        + split; [lia | congruence].
        + now destruct d. }
    destruct (gtb x mp) eqn:Hx.
    + apply IH; auto.
      * intros j y Hj. destruct (Hsplit j y Hj) as [Hp|[_ ->]].
        -- destruct (gtb y x) eqn:Hyx; auto.
           pose proof (gtb_trans _ _ _ Hyx Hx) as Hgt.
           rewrite (Hmax j y Hp) in Hgt. discriminate.
        -- apply gtb_irrefl.
      * intros j y Hlt Hj. destruct (Hsplit j y Hj) as [Hp|[-> _]]; [|lia].
        destruct (gtb x y) eqn:Hxy; auto.
        pose proof (gtb_negtrans _ _ _ Hxy (Hmax j y Hp)) as Hle.
        congruence.
    + apply IH.
      * rewrite nth_error_app1; auto.
        apply nth_error_Some. congruence.
      * intros j y Hj. destruct (Hsplit j y Hj) as [Hp|[_ ->]]; eauto.
      * intros j y Hlt Hj. destruct (Hsplit j y Hj) as [Hp|[-> _]]; eauto.
        assert (max_ind < length p)%nat; [|lia].
        apply nth_error_Some. congruence.
Qed.

Lemma argmax_first_max (a : list T) :
  a <> [] -> exists k, np.argmax a = Ok k /\ first_max a k.
Proof.
  destruct a as [|x l]; [congruence|]. intros _.
  exists (np.argmax_scan x 0 1 l). split; [reflexivity|].
  apply (argmax_scan_first_max l [x] x 0).
  - reflexivity.
  - intros [|[|j]] y Hj; simpl in Hj; try discriminate.
    injection Hj as <-. apply gtb_irrefl.
  - intros; lia.
Qed.

Lemma first_max_lt (a : list T) (k : nat) :
  first_max a k -> (k < length a)%nat.
Proof.
  intros (m & Hk & _). apply nth_error_Some. congruence.
Qed.

Lemma first_max_unique (a : list T) (k k' : nat) :
  first_max a k -> first_max a k' -> k = k'.
Proof.
  intros (m & Hk & Hmax & Hfirst) (m' & Hk' & Hmax' & Hfirst').
  destruct (Nat.lt_trichotomy k k') as [Hlt|[Heq|Hgt]]; auto.
  - specialize (Hfirst' _ _ Hlt Hk). specialize (Hmax _ _ Hk'). congruence.
  - specialize (Hfirst _ _ Hgt Hk'). specialize (Hmax' _ _ Hk). congruence.
Qed.
End ArgmaxFacts.

(** ** Demodulation *)

Lemma nth_error_arange (n i : nat) :
  (i < n)%nat -> nth_error (npf.arange n) i = Some (INR i).
Proof.
  intros Hi. unfold npf.arange.
  rewrite nth_error_map, nth_error_seq.
  destruct (Nat.ltb_spec i n); [reflexivity | lia].
Qed.

Lemma nth_error_combine_some {A B : Type} (l : list A) (l' : list B)
  (i : nat) (a : A) (b : B) :
  nth_error l i = Some a -> nth_error l' i = Some b ->
  nth_error (combine l l') i = Some (a, b).
Proof.
  revert l' i. induction l as [|x l IH]; intros [|y l'] [|i]; simpl;
    try discriminate; intros Ha Hb.
  - congruence.
  - now apply IH.
Qed.

(** With a sample rate other than zero the demodulated array is finite and
    holds, sample by sample, the product with the regenerated carrier. *)
Lemma demodulate_am_finite (signal_data : list R) (sample_rate : Z)
  (carrier_freq : R) :
  sample_rate <> 0%Z ->
  exists out,
    demodulate_am signal_data sample_rate carrier_freq = Finite out /\
    length out = length signal_data /\
    forall i s, nth_error signal_data i = Some s ->
      nth_error out i =
        Some (s * cos (2 * PI * carrier_freq * (INR i / IZR sample_rate))).
Proof.
  intros Hrate. unfold demodulate_am, npf.div_scalar.
  destruct (Req_dec_T (IZR sample_rate) 0) as [H0|_].
  { apply eq_IZR_R0 in H0. contradiction. }
  simpl. eexists. split; [reflexivity|]. split.
  - rewrite length_map, length_combine, !length_map.
    unfold npf.arange. rewrite length_map, length_seq. lia.
  - intros i s Hs.
    assert (Hi : (i < length signal_data)%nat)
      by (apply nth_error_Some; congruence).
    rewrite nth_error_map.
    erewrite nth_error_combine_some; [reflexivity | exact Hs |].
    rewrite !nth_error_map, nth_error_arange by exact Hi. reflexivity.
Qed.



(** C9: demodulation never increases the magnitude of a sample: for every
    signal, positive sample rate and carrier frequency, each output sample
    satisfies [|output[i]| <= |s[i]|], and a zero sample stays zero. *)
Theorem demodulate_am_no_gain (signal_data : list R) (sample_rate : Z)
  (carrier_freq : R) :
  (0 < sample_rate)%Z ->
  exists out,
    demodulate_am signal_data sample_rate carrier_freq = Finite out /\
    length out = length signal_data /\
    forall i s o, nth_error signal_data i = Some s ->
      nth_error out i = Some o ->
      Rabs o <= Rabs s /\ (s = 0 -> o = 0).
Proof.
  intros Hrate.
  destruct (demodulate_am_finite signal_data sample_rate carrier_freq) as (out & Hout & Hlen & Hnth); [lia|].
  exists out. repeat split; auto.
  - rewrite (Hnth i s H) in H0. injection H0 as <-.
    rewrite Rabs_mult.
    set (c := cos _). assert (Hc : Rabs c <= 1).
    { apply Rabs_le. apply COS_bound. }
    pose proof (Rabs_pos s). nra.
  - intros ->. rewrite (Hnth i 0 H) in H0. injection H0 as <-. ring.
Qed.

Lemma demodulate_am_no_gain_witness :
  (0 < 44100)%Z /\
  exists out,
    demodulate_am [0.25; 0; -0.75] 44100 8000 = Finite out /\
    length out = length [0.25; 0; -0.75] /\
    forall i s o, nth_error [0.25; 0; -0.75] i = Some s ->
      nth_error out i = Some o ->
      Rabs o <= Rabs s /\ (s = 0 -> o = 0).
Proof.
  split; [lia | apply demodulate_am_no_gain; lia].
Defined.

(** ** Carrier detection *)

(** The first maximum of a boolean array is its first [true], or index 0
    when there is none. *)
Lemma first_max_bool (b : list bool) (k : nat) :
  first_max b k ->
  (nth_error b k = Some true /\
   forall j x, (j < k)%nat -> nth_error b j = Some x -> x = false) \/
  (k = 0%nat /\ forall j x, nth_error b j = Some x -> x = false).
Proof.
  intros (m & Hk & Hmax & Hfirst). destruct m.
  - left. split; [exact Hk|]. intros j x Hlt Hj.
    specialize (Hfirst j x Hlt Hj). simpl in Hfirst. now destruct x.
  - right. split.
    + destruct k as [|k]; [reflexivity|].
      destruct b as [|x b]; [discriminate|].
      specialize (Hfirst 0%nat x (Nat.lt_0_succ k) eq_refl). discriminate.
    + intros j x Hj. specialize (Hmax j x Hj). simpl in Hmax.
      now destruct x.
Qed.

Lemma strongly_sorted_nth (l : list R) (i j : nat) (a b : R) :
  StronglySorted Rle l -> (i <= j)%nat ->
  nth_error l i = Some a -> nth_error l j = Some b -> a <= b.
Proof.
  intros Hs. revert i j. induction Hs as [|x l Hs IH Hall]; intros i j Hij Hi Hj.
  - now destruct i.
  - destruct i as [|i], j as [|j]; simpl in *; try lia.
    + injection Hi as <-. injection Hj as <-. lra.
    + injection Hi as <-. rewrite Forall_forall in Hall.
      apply Hall. eapply nth_error_In; eauto.
    + apply (IH i j); auto. lia.
Qed.

(** How a call of [find_carrier_frequency] on arrays of one length, not
    empty, runs: no step raises, and each [argmax] finds a first maximum. *)
Lemma find_carrier_frequency_run {F M : Type} `{Dtype F} `{DtypeOrder M}
  (frequencies : list F) (magnitudes : list M) :
  length frequencies = length magnitudes -> frequencies <> [] ->
  exists start_idx rel_idx f,
    np.argmax (np.gt_scalar frequencies 1000) = Ok start_idx /\
    first_max (np.gt_scalar frequencies 1000) start_idx /\
    first_max (skipn start_idx magnitudes) rel_idx /\
    nth_error frequencies (rel_idx + start_idx) = Some f /\
    find_carrier_frequency frequencies magnitudes = Ok f.
Proof.
  intros Hlen Hne.
  destruct (argmax_first_max (np.gt_scalar frequencies 1000))
    as (start_idx & Hstart & Hfm).
  { unfold np.gt_scalar. destruct frequencies; [congruence | discriminate]. }
  pose proof (first_max_lt _ _ Hfm) as Hlt.
  unfold np.gt_scalar in Hlt. rewrite length_map in Hlt.
  destruct (argmax_first_max (skipn start_idx magnitudes))
    as (rel_idx & Hrel & Hfm').
  { intros Hnil. apply (f_equal (@length M)) in Hnil.
    rewrite length_skipn in Hnil. simpl in Hnil. lia. }
  pose proof (first_max_lt _ _ Hfm') as Hlt'. rewrite length_skipn in Hlt'.
  destruct (nth_error frequencies (rel_idx + start_idx)) as [f|] eqn:Hf.
  - exists start_idx, rel_idx, f. repeat split; auto.
    unfold find_carrier_frequency. rewrite Hstart. simpl.
    rewrite Hrel. simpl. unfold np.getitem. now rewrite Hf.
  - apply nth_error_None in Hf. lia.
Qed.

(** The detector run on integer arrays: the threshold excludes the large
    bin at 0 Hz, two bins tie at magnitude 9 and the first one wins; with
    no bin above 1000 Hz the whole spectrum is searched. *)
Example find_carrier_frequency_tie :
  find_carrier_frequency [0; 500; 1000; 1500; 2000; 2500]%Z
    [90; 3; 4; 7; 9; 9]%Z = Ok 2000%Z.
Proof. reflexivity. Qed.

Example find_carrier_frequency_low_rate :
  find_carrier_frequency [0; 250; 500; 750]%Z [1; 8; 3; 8]%Z = Ok 250%Z.
Proof. reflexivity. Qed.

Example find_carrier_frequency_empty :
  find_carrier_frequency (@nil Z) (@nil Z) = Raise ValueError.
Proof. reflexivity. Qed.

Example find_carrier_frequency_short_magnitudes :
  find_carrier_frequency [0; 2000; 4000]%Z [5]%Z = Raise ValueError.
Proof. reflexivity. Qed.

Example find_carrier_frequency_long_magnitudes :
  find_carrier_frequency [0; 2000]%Z [5; 1; 7]%Z = Raise IndexError.
Proof. reflexivity. Qed.

(** The same on arrays of floats. *)
Example find_carrier_frequency_floats :
  find_carrier_frequency [0; 4000; 8000; 12000] [1; 3; 7; 7] = Ok 8000.
Proof.
  unfold find_carrier_frequency, np.gt_scalar. cbn [map gtb of_int R_dtype].
  decide_Rgtb. cbn. decide_Rgtb. cbn. decide_Rgtb. reflexivity.
Qed.

(** The search covers every bin from the first one above 1000 Hz on: on
    frequencies that are not in increasing order it can return a bin that
    is not above 1000 Hz, which is why the theorems below take the
    frequencies of a spectrum to be sorted, as the data model has them. *)
Example find_carrier_frequency_unsorted :
  find_carrier_frequency [2000; 500]%Z [1; 5]%Z = Ok 500%Z.
Proof. reflexivity. Qed.

Lemma nth_error_gt_scalar (frequencies : list R) (c : Z) (j : nat) (x : bool) :
  nth_error (np.gt_scalar frequencies c) j = Some x <->
  exists f, nth_error frequencies j = Some f /\ x = Rgtb f (IZR c).
Proof.
  unfold np.gt_scalar. rewrite nth_error_map. simpl.
  destruct (nth_error frequencies j) as [f|]; simpl; split.
  - intros [= <-]. now exists f.
  - intros (f' & [= <-] & ->). reflexivity.
  - discriminate.
  - intros (f' & Hf & _). discriminate.
Qed.

(** C1: for every spectrum with at least one bin whose frequency exceeds
    1000 Hz, [find_carrier_frequency] returns the frequency of the bin of
    maximum magnitude among the bins above 1000 Hz, and among several such
    bins of that magnitude the first one, of lowest frequency. *)
Theorem find_carrier_frequency_peak_above_floor
  (frequencies magnitudes : list R) :
  spectrum frequencies magnitudes ->
  (exists f, In f frequencies /\ 1000 < f) ->
  exists k f m,
    find_carrier_frequency frequencies magnitudes = Ok f /\
    bin frequencies magnitudes k f m /\
    1000 < f /\
    (forall j fj mj, bin frequencies magnitudes j fj mj -> 1000 < fj ->
       mj <= m) /\
    (forall j fj mj, bin frequencies magnitudes j fj mj -> 1000 < fj ->
       mj = m -> (k <= j)%nat /\ f <= fj).
Proof.
  intros (Hlen & Hne & Hsorted) (f1 & Hin & Hf1).
  destruct (find_carrier_frequency_run frequencies magnitudes Hlen Hne)
    as (start & rel & f & _ & Hstart & Hrel & Hf & Hrun).
  apply first_max_bool in Hstart.
  destruct Hstart as [[Htrue Hbefore]|[_ Hnone]].
  2:{ apply In_nth_error in Hin. destruct Hin as [j Hj].
      assert (Habs : Rgtb f1 1000 = false).
      { apply (Hnone j). apply nth_error_gt_scalar. now exists f1. }
      apply Rgtb_false in Habs. lra. }
  apply nth_error_gt_scalar in Htrue. destruct Htrue as (f0 & Hf0 & Hgt).
  symmetry in Hgt. apply Rgtb_true in Hgt.
  (* the bins above 1000 Hz are those from [start] on *)
  assert (Hfrom : forall j fj, nth_error frequencies j = Some fj ->
             1000 < fj -> (start <= j)%nat).
  { intros j fj Hj Hfj. destruct (Nat.le_gt_cases start j) as [|Hlt]; auto.
    assert (Habs : Rgtb fj 1000 = false).
    { apply (Hbefore j); auto. apply nth_error_gt_scalar. now exists fj. }
    apply Rgtb_false in Habs. lra. }
  destruct Hrel as (m & Hm & Hmax & Hfirst).
  rewrite nth_error_skipn in Hm.
  exists (rel + start)%nat, f, m. split; [exact Hrun|].
  split; [split; [exact Hf | now rewrite Nat.add_comm]|].
  split.
  { assert (Hle : (start <= rel + start)%nat) by lia.
    pose proof (strongly_sorted_nth _ _ _ _ _ Hsorted Hle Hf0 Hf). lra. }
  split.
  - intros j fj mj [Hj Hmj] Hfj. pose proof (Hfrom j fj Hj Hfj) as Hle.
    apply Rgtb_false. apply (Hmax (j - start)%nat).
    rewrite nth_error_skipn. now replace (start + (j - start))%nat with j by lia.
  - intros j fj mj [Hj Hmj] Hfj ->. pose proof (Hfrom j fj Hj Hfj) as Hle.
    assert (Hkj : (rel + start <= j)%nat).
    { destruct (Nat.le_gt_cases (rel + start) j) as [|Hlt]; auto.
      assert (Habs : Rgtb m m = true).
      { apply (Hfirst (j - start)%nat); [lia|].
        rewrite nth_error_skipn.
        now replace (start + (j - start))%nat with j by lia. }
      apply Rgtb_true in Habs. lra. }
    split; [exact Hkj|].
    exact (strongly_sorted_nth _ _ _ _ _ Hsorted Hkj Hf Hj).
Qed.

Lemma find_carrier_frequency_peak_above_floor_witness :
  spectrum [0; 800; 1600; 2400; 3200] [9; 7; 2; 5; 5] /\
  (exists f, In f [0; 800; 1600; 2400; 3200] /\ 1000 < f) /\
  exists k f m,
    find_carrier_frequency [0; 800; 1600; 2400; 3200] [9; 7; 2; 5; 5] = Ok f /\
    bin [0; 800; 1600; 2400; 3200] [9; 7; 2; 5; 5] k f m /\
    1000 < f /\
    (forall j fj mj, bin [0; 800; 1600; 2400; 3200] [9; 7; 2; 5; 5] j fj mj ->
       1000 < fj -> mj <= m) /\
    (forall j fj mj, bin [0; 800; 1600; 2400; 3200] [9; 7; 2; 5; 5] j fj mj ->
       1000 < fj -> mj = m -> (k <= j)%nat /\ f <= fj).
Proof.
  assert (Hs : spectrum [0; 800; 1600; 2400; 3200] [9; 7; 2; 5; 5]).
  { split; [reflexivity|]. split; [discriminate|].
    repeat constructor; lra. }
  assert (He : exists f, In f [0; 800; 1600; 2400; 3200] /\ 1000 < f).
  { exists 1600. split; [simpl; tauto | lra]. }
  split; [exact Hs|]. split; [exact He|].
  exact (find_carrier_frequency_peak_above_floor _ _ Hs He).
Defined.

(** C2: for every spectrum in which every bin's frequency is at most
    1000 Hz, the search starts at index 0 and covers the full spectrum: no
    step raises, and the frequency returned is that of the bin of globally
    maximal magnitude (the first such bin). *)
Theorem find_carrier_frequency_fallback (frequencies magnitudes : list R) :
  length frequencies = length magnitudes -> frequencies <> [] ->
  (forall f, In f frequencies -> f <= 1000) ->
  np.argmax (np.gt_scalar frequencies 1000) = Ok 0%nat /\
  exists k f m,
    find_carrier_frequency frequencies magnitudes = Ok f /\
    bin frequencies magnitudes k f m /\
    (forall j mj, nth_error magnitudes j = Some mj -> mj <= m) /\
    (forall j mj, (j < k)%nat -> nth_error magnitudes j = Some mj -> mj < m).
Proof.
  intros Hlen Hne Hlow.
  destruct (find_carrier_frequency_run frequencies magnitudes Hlen Hne)
    as (start & rel & f & Hargmax & Hstart & Hrel & Hf & Hrun).
  assert (H0 : start = 0%nat).
  { apply first_max_bool in Hstart.
    destruct Hstart as [[Htrue _]|[H0 _]]; [|exact H0].
    apply nth_error_gt_scalar in Htrue. destruct Htrue as (f0 & Hf0 & Hgt).
    symmetry in Hgt. apply Rgtb_true in Hgt.
    apply nth_error_In in Hf0. apply Hlow in Hf0. lra. }
  subst start. split; [exact Hargmax|].
  simpl in Hrel. rewrite Nat.add_0_r in Hf.
  destruct Hrel as (m & Hm & Hmax & Hfirst).
  exists rel, f, m. split; [exact Hrun|]. split; [now split|]. split.
  - intros j mj Hj. apply Rgtb_false. exact (Hmax j mj Hj).
  - intros j mj Hlt Hj. apply Rgtb_true. exact (Hfirst j mj Hlt Hj).
Qed.

Lemma find_carrier_frequency_fallback_witness :
  length [0; 250; 500; 750] = length [1; 8; 3; 8] /\
  [0; 250; 500; 750] <> [] /\
  (forall f, In f [0; 250; 500; 750] -> f <= 1000) /\
  np.argmax (np.gt_scalar [0; 250; 500; 750] 1000) = Ok 0%nat /\
  exists k f m,
    find_carrier_frequency [0; 250; 500; 750] [1; 8; 3; 8] = Ok f /\
    bin [0; 250; 500; 750] [1; 8; 3; 8] k f m /\
    (forall j mj, nth_error [1; 8; 3; 8] j = Some mj -> mj <= m) /\
    (forall j mj, (j < k)%nat -> nth_error [1; 8; 3; 8] j = Some mj -> mj < m).
Proof.
  assert (Hlow : forall f, In f [0; 250; 500; 750] -> f <= 1000).
  { simpl. intros f [<-|[<-|[<-|[<-|[]]]]]; lra. }
  split; [reflexivity|]. split; [discriminate|]. split; [exact Hlow|].
  apply find_carrier_frequency_fallback;
    [reflexivity | discriminate | exact Hlow].
Defined.

(** ** Double precision: what follows from the rounding of one operation *)

(** Exact arithmetic is one of the rounding functions. *)
Lemma rounding_id : rounding (fun x => x).
Proof.
  assert (Hu : 0 < u) by (unfold u; lra).
  assert (He : 0 < eta) by (unfold eta; lra).
  split.
  - intros x _. rewrite Rminus_diag, Rabs_R0.
    pose proof (Rabs_pos x). nra.
  - intros x _. rewrite Rminus_diag, Rabs_R0.
    pose proof (Rabs_pos x). nra.
  - intros x y _ _ H. exact H.
  - reflexivity.
Qed.

Lemma Rabs_le_between (x b : R) : Rabs x <= b -> - b <= x <= b.
Proof. unfold Rabs. destruct (Rcase_abs x); lra. Qed.

Lemma INR_bounds (N : nat) (b : Z) :
  (1 <= N)%nat -> (Z.of_nat N <= b)%Z -> 1 <= INR N <= IZR b.
Proof.
  intros H1 Hb. rewrite INR_IZR_INZ. split.
  - apply (IZR_le 1). lia.
  - now apply IZR_le.
Qed.

Section RoundingFacts.
Variable rnd : R -> R.
Hypothesis Hrnd : rounding rnd.

Lemma rnd_0 : rnd 0 = 0.
Proof. exact (rnd_int rnd Hrnd 0 ltac:(lia)). Qed.

(** A positive value in range is rounded with a relative error of at
    most [u]. *)
Lemma rnd_pos_bounds (x : R) :
  / big <= x <= big -> x * (1 - u) <= rnd x <= x * (1 + u).
Proof.
  intros Hx.
  assert (H0 : 0 < / big) by (unfold big; lra).
  assert (Habs : Rabs x = x) by (apply Rabs_right; lra).
  pose proof (rnd_rel rnd Hrnd x) as Hrel. rewrite Habs in Hrel.
  specialize (Hrel Hx). apply Rabs_le_between in Hrel. lra.
Qed.

Lemma rnd_between (x lo hi : R) :
  / big <= lo -> hi <= big -> lo <= x <= hi ->
  lo * (1 - u) <= rnd x <= hi * (1 + u).
Proof.
  intros Hlo Hhi Hx.
  destruct (rnd_pos_bounds x) as [H1 H2]; [lra|].
  assert (Hu : 0 < u < 1) by (unfold u; lra).
  split.
  - apply Rle_trans with (x * (1 - u)); [|exact H1].
    apply Rmult_le_compat_r; lra.
  - apply Rle_trans with (x * (1 + u)); [exact H2|].
    apply Rmult_le_compat_r; lra.
Qed.

(** The bin spacing [val] that [np.fft.rfftfreq] computes from [n] and
    [d = 1 / sample_rate]: three roundings away from [sample_rate / n]. *)
Lemma spacing_fl (N : nat) (sample_rate : Z) :
  (1 <= N)%nat -> (Z.of_nat N <= 2 ^ 53)%Z ->
  (0 < sample_rate <= 2 ^ 32)%Z ->
  let T := IZR sample_rate / INR N in
  let p := rnd (INR N * rnd (1 / IZR sample_rate)) in
  0 < p /\ T * (1 - 4 * u) <= rnd (1 / p) <= T * (1 + 5 * u).
Proof.
  intros HN Hb Hrate T p.
  destruct (INR_bounds N _ HN Hb) as [Hn1 Hn2].
  assert (Hr1 : 1 <= IZR sample_rate) by (apply (IZR_le 1); lia).
  assert (Hr2 : IZR sample_rate <= IZR (2 ^ 32)) by (apply IZR_le; lia).
  change (2 ^ 32)%Z with 4294967296%Z in Hr2.
  change (2 ^ 53)%Z with 9007199254740992%Z in Hn2.
  set (n := INR N) in *. set (r := IZR sample_rate) in *.
  set (x0 := 1 / r) in *.
  assert (Hx0 : / 4294967296 <= x0 <= 1).
  { subst x0. unfold Rdiv. rewrite Rmult_1_l. split.
    - apply Rinv_le_contravar; lra.
    - rewrite <- Rinv_1. apply Rinv_le_contravar; lra. }
  assert (Hd : x0 * (1 - u) <= rnd x0 <= x0 * (1 + u)).
  { apply rnd_pos_bounds. unfold big. lra. }
  set (d := rnd x0) in *.
  set (S := n * x0).
  assert (HS : / 4294967296 <= S <= 9007199254740992).
  { subst S. split.
    - apply Rle_trans with (1 * x0); [lra|]. apply Rmult_le_compat_r; lra.
    - apply Rle_trans with (n * 1); [|lra]. apply Rmult_le_compat_l; lra. }
  assert (Hnd : S * (1 - u) <= n * d <= S * (1 + u)).
  { subst S. split.
    - rewrite Rmult_assoc. apply Rmult_le_compat_l; lra.
    - rewrite Rmult_assoc. apply Rmult_le_compat_l; lra. }
  assert (Hp : S * (1 - 2 * u) <= p <= S * (1 + 3 * u)).
  { destruct (rnd_between (n * d) (S * (1 - u)) (S * (1 + u))) as [H1 H2].
    - unfold big, u. lra.
    - unfold big, u. lra.
    - exact Hnd.
    - change (rnd (n * d)) with p in H1, H2. unfold u in *. lra. }
  assert (Hp0 : 0 < p) by (unfold u in Hp; lra).
  split; [exact Hp0|].
  assert (HT : T * S = 1).
  { subst T S x0. field. lra. }
  assert (HT0 : / 9007199254740992 <= T <= 4294967296).
  { subst T. unfold Rdiv. split.
    - apply Rle_trans with (1 * / n); [|apply Rmult_le_compat_r].
      + rewrite Rmult_1_l. apply Rinv_le_contravar; lra.
      + apply Rlt_le, Rinv_0_lt_compat. lra.
      + lra.
    - apply Rle_trans with (r * / 1); [|rewrite Rinv_1; lra].
      apply Rmult_le_compat_l; [lra|]. apply Rinv_le_contravar; lra. }
  set (q := T * p).
  assert (Hq : 1 - 2 * u <= q <= 1 + 3 * u).
  { subst q. split.
    - replace (1 - 2 * u) with (T * (S * (1 - 2 * u)))
        by (rewrite <- Rmult_assoc, HT; ring).
      apply Rmult_le_compat_l; lra.
    - replace (1 + 3 * u) with (T * (S * (1 + 3 * u)))
        by (rewrite <- Rmult_assoc, HT; ring).
      apply Rmult_le_compat_l; lra. }
  assert (Hinv : 1 / p = T * / q).
  { subst q. field. lra. }
  assert (Hq' : 1 - 3 * u <= / q <= 1 + 3 * u).
  { unfold u in *. split.
    - apply Rle_trans with (/ (1 + 3 * / 9007199254740992)).
      + lra.
      + apply Rinv_le_contravar; lra.
    - apply Rle_trans with (/ (1 - 2 * / 9007199254740992)).
      + apply Rinv_le_contravar; lra.
      + lra. }
  assert (Hip : T * (1 - 3 * u) <= 1 / p <= T * (1 + 3 * u)).
  { rewrite Hinv. split; apply Rmult_le_compat_l; lra. }
  destruct (rnd_between (1 / p) (T * (1 - 3 * u)) (T * (1 + 3 * u)))
    as [H1 H2].
  - unfold big, u. lra.
  - unfold big, u. lra.
  - exact Hip.
  - unfold u in *. lra.
Qed.

(** Bin [k] of the frequencies is [k * val] rounded once more: it lies
    within a relative error of [8 * u = 2^-50] of [k * sample_rate / n],
    which is at most half the sample rate. *)
Lemma bin_fl (N k : nat) (sample_rate : Z) :
  (1 <= N)%nat -> (Z.of_nat N <= 2 ^ 53)%Z ->
  (0 < sample_rate <= 2 ^ 32)%Z -> (k <= N / 2)%nat ->
  let K := INR k * IZR sample_rate / INR N in
  let val := rnd (1 / rnd (INR N * rnd (1 / IZR sample_rate))) in
  0 <= K <= IZR sample_rate / 2 /\
  0 <= INR k * val <= big /\
  Rabs (rnd (INR k * val) - K) <= 8 * u * K.
Proof.
  intros HN Hb Hrate Hk K val.
  destruct (spacing_fl N sample_rate HN Hb Hrate) as [_ Hval].
  cbv zeta in Hval. fold val in Hval.
  destruct (INR_bounds N _ HN Hb) as [Hn1 Hn2].
  assert (Hr1 : 1 <= IZR sample_rate) by (apply (IZR_le 1); lia).
  assert (Hr2 : IZR sample_rate <= IZR (2 ^ 32)) by (apply IZR_le; lia).
  change (2 ^ 32)%Z with 4294967296%Z in Hr2.
  change (2 ^ 53)%Z with 9007199254740992%Z in Hn2.
  assert (H2k : 2 * INR k <= INR N).
  { replace 2 with (INR 2) by reflexivity. rewrite <- mult_INR.
    apply le_INR. pose proof (Nat.div_mod_eq N 2). lia. }
  pose proof (pos_INR k) as Hk0.
  set (n := INR N) in *. set (r := IZR sample_rate) in *.
  set (T := r / n) in *.
  assert (HT0 : / 9007199254740992 <= T <= 4294967296).
  { subst T. unfold Rdiv. split.
    - apply Rle_trans with (1 * / n); [|apply Rmult_le_compat_r].
      + rewrite Rmult_1_l. apply Rinv_le_contravar; lra.
      + apply Rlt_le, Rinv_0_lt_compat. lra.
      + lra.
    - apply Rle_trans with (r * / 1); [|rewrite Rinv_1; lra].
      apply Rmult_le_compat_l; [lra|]. apply Rinv_le_contravar; lra. }
  assert (HK : K = INR k * T) by (subst K T; unfold Rdiv; ring).
  assert (HK2 : 0 <= K <= r / 2).
  { rewrite HK. split.
    - apply Rmult_le_pos; lra.
    - replace (r / 2) with (n / 2 * T) by (subst T; field; lra).
      apply Rmult_le_compat_r; lra. }
  split; [exact HK2|].
  assert (Hkv : K * (1 - 4 * u) <= INR k * val <= K * (1 + 5 * u)).
  { rewrite HK, !Rmult_assoc. split; apply Rmult_le_compat_l; lra. }
  assert (Hu : 0 < u < / 16) by (unfold u; lra).
  split.
  { split.
    - apply Rle_trans with (K * (1 - 4 * u)); [|lra].
      apply Rmult_le_pos; lra.
    - apply Rle_trans with (K * (1 + 5 * u)); [lra|].
      apply Rle_trans with (r / 2 * 2).
      + apply Rmult_le_compat; lra.
      + unfold big. lra. }
  destruct (Nat.eq_dec k 0) as [->|Hne].
  - subst K. simpl INR. rewrite !Rmult_0_l. unfold Rdiv.
    rewrite !Rmult_0_l, rnd_0, Rminus_diag, Rabs_R0, Rmult_0_r. lra.
  - assert (Hk1 : 1 <= INR k) by (apply (le_INR 1); lia).
    assert (HKlo : / 9007199254740992 <= K).
    { rewrite HK. apply Rle_trans with (1 * T); [lra|].
      apply Rmult_le_compat_r; lra. }
    destruct (rnd_between (INR k * val) (K * (1 - 4 * u)) (K * (1 + 5 * u)))
      as [H1 H2].
    + unfold big, u. lra.
    + unfold big, u. lra.
    + exact Hkv.
    + apply Rabs_le. unfold u in *. lra.
Qed.

(** On a signal with a sample and a positive sample rate no step of
    [analyze_spectrum] raises when its divisions and products round. *)
Lemma analyze_spectrum_fl_ok (signal_data : list R) (sample_rate : Z) :
  (1 <= length signal_data)%nat ->
  (Z.of_nat (length signal_data) <= 2 ^ 53)%Z ->
  (0 < sample_rate <= 2 ^ 32)%Z ->
  let n := length signal_data in
  let val := rnd (1 / rnd (INR n * rnd (1 / IZR sample_rate))) in
  analyze_spectrum_fl rnd signal_data sample_rate =
    Ok (map (fun k => rnd (k * val)) (npf.arange (n / 2 + 1)),
        map Cabs
          (map (fun k => fft.dft_from n k 0 signal_data (mkC 0 0))
             (seq 0 (n / 2 + 1)))).
Proof.
  intros HN Hb Hrate n val.
  destruct (spacing_fl n sample_rate HN Hb Hrate) as [Hp _].
  cbv zeta in Hp.
  assert (Hr : IZR sample_rate <> 0) by (apply not_0_IZR; lia).
  unfold analyze_spectrum_fl, py_div_fl.
  destruct (Req_dec_T (IZR sample_rate) 0) as [|_]; [contradiction|].
  cbn [bind]. unfold rfftfreq_fl, py_div_fl. fold n.
  destruct (Req_dec_T (rnd (INR n * rnd (1 / IZR sample_rate))) 0) as [H0|_].
  { rewrite H0 in Hp. lra. }
  cbn [bind]. unfold fft.rfft. fold n.
  destruct n as [|n'] eqn:En; [lia|]. reflexivity.
Qed.

(** Every rounded bin lies between zero and half the sample rate, the
    latter up to the relative error of the bin. *)
Lemma frequencies_fl_range (N : nat) (sample_rate : Z) (f : R) :
  (1 <= N)%nat -> (Z.of_nat N <= 2 ^ 53)%Z ->
  (0 < sample_rate <= 2 ^ 32)%Z ->
  let val := rnd (1 / rnd (INR N * rnd (1 / IZR sample_rate))) in
  In f (map (fun k => rnd (k * val)) (npf.arange (N / 2 + 1))) ->
  0 <= f <= IZR sample_rate / 2 * (1 + 8 * u).
Proof.
  intros HN Hb Hrate val Hf. apply in_map_iff in Hf.
  destruct Hf as (x & <- & Hx). unfold npf.arange in Hx.
  apply in_map_iff in Hx. destruct Hx as (k & <- & Hk). apply in_seq in Hk.
  destruct (bin_fl N k sample_rate HN Hb Hrate ltac:(lia)) as (HK & _ & Hb').
  cbv zeta in HK, Hb'. fold val in Hb'.
  apply Rabs_le_between in Hb'.
  assert (Hu : 0 < u < / 16) by (unfold u; lra).
  set (K := INR k * IZR sample_rate / INR N) in *.
  split; nra.
Qed.

(** The frequencies do not decrease from one bin to the next. *)
Lemma frequencies_fl_sorted (N : nat) (sample_rate : Z) :
  (1 <= N)%nat -> (Z.of_nat N <= 2 ^ 53)%Z ->
  (0 < sample_rate <= 2 ^ 32)%Z ->
  let val := rnd (1 / rnd (INR N * rnd (1 / IZR sample_rate))) in
  forall i j, (i <= j)%nat -> (j <= N / 2)%nat ->
    rnd (INR i * val) <= rnd (INR j * val).
Proof.
  intros HN Hb Hrate val i j Hij Hj.
  destruct (bin_fl N i sample_rate HN Hb Hrate ltac:(lia)) as (_ & Hi & _).
  destruct (bin_fl N j sample_rate HN Hb Hrate Hj) as (_ & Hj' & _).
  cbv zeta in Hi, Hj'. fold val in Hi, Hj'.
  destruct (spacing_fl N sample_rate HN Hb Hrate) as [_ Hv].
  cbv zeta in Hv. fold val in Hv.
  assert (HT : 0 < IZR sample_rate / INR N).
  { apply Rdiv_lt_0_compat; [apply IZR_lt; lia | apply lt_0_INR; lia]. }
  assert (Hval : 0 <= val) by (unfold u in Hv; nra).
  apply (rnd_mono rnd Hrnd).
  - rewrite Rabs_pos_eq; lra.
  - rewrite Rabs_pos_eq; lra.
  - apply Rmult_le_compat_r; [exact Hval | now apply le_INR].
Qed.

End RoundingFacts.

(** ** Spectrum analysis *)

(** On a signal that is not empty and with a sample rate other than zero
    no step of [analyze_spectrum] raises. *)
Lemma analyze_spectrum_ok (signal_data : list R) (sample_rate : Z) :
  signal_data <> [] -> sample_rate <> 0%Z ->
  let n := length signal_data in
  analyze_spectrum signal_data sample_rate =
    Ok (map (fun k => k * (1 / (INR n * (1 / IZR sample_rate))))
          (npf.arange (n / 2 + 1)),
        map Cabs
          (map (fun k => fft.dft_from n k 0 signal_data (mkC 0 0))
             (seq 0 (n / 2 + 1)))).
Proof.
  intros Hne Hrate n.
  assert (Hr : IZR sample_rate <> 0) by (now apply not_0_IZR).
  assert (Hn : INR n <> 0).
  { apply not_0_INR. subst n. destruct signal_data; [congruence | discriminate]. }
  unfold analyze_spectrum, py_div.
  destruct (Req_dec_T (IZR sample_rate) 0) as [|_]; [contradiction|]. simpl.
  unfold fft.rfftfreq, py_div. fold n.
  destruct (Req_dec_T (INR n * (1 / IZR sample_rate)) 0) as [H0|_].
  { exfalso. apply Rmult_integral in H0. destruct H0 as [|H0]; [contradiction|].
    unfold Rdiv in H0. rewrite Rmult_1_l in H0.
    now apply (Rinv_neq_0_compat (IZR sample_rate) Hr). }
  simpl. unfold fft.rfft. fold n.
  destruct n as [|n'] eqn:En; [now elim Hn|]. reflexivity.
Qed.

(** The loop of [fft.dft_from] adds to [acc] the sum the specification
    writes with [sum_f_R0], real and imaginary part. *)
Lemma dft_from_sum (n k : nat) (a : list R) :
  a <> [] -> forall (m : nat) (acc : complex),
  re (fft.dft_from n k m a acc) =
    re acc + sum_f_R0 (fun j => nth j a 0 *
                         cos (2 * PI * INR (m + j) * INR k / INR n))
               (length a - 1) /\
  im (fft.dft_from n k m a acc) =
    im acc - sum_f_R0 (fun j => nth j a 0 *
                         sin (2 * PI * INR (m + j) * INR k / INR n))
               (length a - 1).
Proof.
  induction a as [|x a IH]; [congruence|]. intros _ m acc.
  destruct a as [|y a].
  - simpl. rewrite Nat.add_0_r. split; ring.
  - assert (Hne : y :: a <> []) by discriminate.
    destruct (IH Hne (S m) (Cadd acc (Crot x (2 * PI * INR m * INR k / INR n))))
      as [IHre IHim].
    change (fft.dft_from n k m (x :: y :: a) acc)
      with (fft.dft_from n k (S m) (y :: a)
              (Cadd acc (Crot x (2 * PI * INR m * INR k / INR n)))).
    rewrite IHre, IHim.
    replace (length (x :: y :: a) - 1)%nat with (S (length a)) by (simpl; lia).
    replace (length (y :: a) - 1)%nat with (length a) by (simpl; lia).
    rewrite !(decomp_sum _ (S (length a))) by lia.
    simpl pred. cbn [nth]. rewrite Nat.add_0_r. cbn [Cadd Crot re im].
    split.
    + rewrite (sum_eq _ (fun i => nth (S i) (x :: y :: a) 0 *
                 cos (2 * PI * INR (m + S i) * INR k / INR n))).
      * cbn [nth]. ring.
      * intros i _. cbn [nth]. now rewrite Nat.add_succ_r.
    + rewrite (sum_eq _ (fun i => nth (S i) (x :: y :: a) 0 *
                 sin (2 * PI * INR (m + S i) * INR k / INR n))).
      * cbn [nth]. ring.
      * intros i _. cbn [nth]. now rewrite Nat.add_succ_r.
Qed.

Lemma Cabs_dft_from (signal_data : list R) (k : nat) :
  signal_data <> [] ->
  Cabs (fft.dft_from (length signal_data) k 0 signal_data (mkC 0 0)) =
  dft_modulus signal_data k.
Proof.
  intros Hne.
  destruct (dft_from_sum (length signal_data) k signal_data Hne 0 (mkC 0 0))
    as [Hre Him].
  unfold Cabs, dft_modulus, dft_re, dft_im. rewrite Hre, Him. simpl.
  f_equal. ring.
Qed.


(** In exact arithmetic, which the functions [analyze_spectrum] and
    [fft.rfft] above are written in, frequency bin [k] is [k * R / N] and
    magnitude [k] is the modulus of coefficient [k] of the discrete
    Fourier transform of the signal, not divided by [N]. *)
Lemma analyze_spectrum_exact (signal_data : list R) (sample_rate : Z) :
  (1 <= length signal_data)%nat -> (0 < sample_rate)%Z ->
  exists frequencies magnitudes,
    analyze_spectrum signal_data sample_rate = Ok (frequencies, magnitudes) /\
    length frequencies = (length signal_data / 2 + 1)%nat /\
    length magnitudes = (length signal_data / 2 + 1)%nat /\
    forall k, (k <= length signal_data / 2)%nat ->
      nth_error frequencies k =
        Some (INR k * IZR sample_rate / INR (length signal_data)) /\
      nth_error magnitudes k = Some (dft_modulus signal_data k).
Proof.
  intros HN Hrate.
  assert (Hne : signal_data <> []) by (destruct signal_data; simpl in *; [lia | discriminate]).
  assert (Hr : sample_rate <> 0%Z) by lia.
  pose proof (analyze_spectrum_ok signal_data sample_rate Hne Hr) as Hrun.
  cbv zeta in Hrun. do 2 eexists. split; [exact Hrun|].
  unfold npf.arange. rewrite !length_map, length_seq.
  repeat split.
  - rewrite !nth_error_map, nth_error_seq.
    destruct (Nat.ltb_spec k (length signal_data / 2 + 1)); [|lia].
    simpl. f_equal. field. split.
    + apply not_0_INR. lia.
    + now apply not_0_IZR.
  - rewrite !nth_error_map, nth_error_seq.
    destruct (Nat.ltb_spec k (length signal_data / 2 + 1)); [|lia].
    simpl. f_equal. now apply Cabs_dft_from.
Qed.

(** C4, as the code has it: for every signal of [1 <= N <= 2^53] samples
    and every sample rate [0 < R <= 2^32], [analyze_spectrum] returns a
    frequency sequence and a magnitude sequence, both of length
    [floor(N/2) + 1]; frequency bin 0 is 0 and frequency bin [k] is the
    double [k * (1 / (N * (1 / R)))], each operation rounded, which lies
    within a relative error of [8 * u = 2^-50] of [k * R / N].  In exact
    arithmetic frequency bin [k] is [k * R / N] and magnitude [k] is the
    modulus of coefficient [k] of the discrete Fourier transform of the
    signal, not divided by [N]. *)
Theorem analyze_spectrum_one_sided_rounded (rnd : R -> R)
  (signal_data : list R) (sample_rate : Z) :
  rounding rnd ->
  (1 <= length signal_data)%nat ->
  (Z.of_nat (length signal_data) <= 2 ^ 53)%Z ->
  (0 < sample_rate <= 2 ^ 32)%Z ->
  exists frequencies magnitudes,
    analyze_spectrum_fl rnd signal_data sample_rate =
      Ok (frequencies, magnitudes) /\
    length frequencies = (length signal_data / 2 + 1)%nat /\
    length magnitudes = (length signal_data / 2 + 1)%nat /\
    nth_error frequencies 0 = Some 0 /\
    (forall k, (k <= length signal_data / 2)%nat ->
       exists f,
         nth_error frequencies k = Some f /\
         Rabs (f - INR k * IZR sample_rate / INR (length signal_data)) <=
           8 * u * (INR k * IZR sample_rate / INR (length signal_data))) /\
    exists frequencies0 magnitudes0,
      analyze_spectrum signal_data sample_rate =
        Ok (frequencies0, magnitudes0) /\
      forall k, (k <= length signal_data / 2)%nat ->
        nth_error frequencies0 k =
          Some (INR k * IZR sample_rate / INR (length signal_data)) /\
        nth_error magnitudes0 k = Some (dft_modulus signal_data k).
Proof.
  intros Hrnd HN Hb Hrate.
  pose proof (analyze_spectrum_fl_ok rnd Hrnd signal_data sample_rate
                HN Hb Hrate) as Hrun.
  cbv zeta in Hrun. do 2 eexists. split; [exact Hrun|].
  unfold npf.arange. rewrite !length_map, length_seq.
  split; [reflexivity|]. split; [reflexivity|]. split; [|split].
  - rewrite Nat.add_1_r. cbn [seq map nth_error]. f_equal.
    simpl INR. rewrite Rmult_0_l. apply (rnd_0 rnd Hrnd).
  - intros k Hk. eexists. split.
    + fold (npf.arange (length signal_data / 2 + 1)).
      rewrite nth_error_map, nth_error_arange by lia. reflexivity.
    + apply (bin_fl rnd Hrnd (length signal_data) k sample_rate
               HN Hb Hrate Hk).
  - destruct (analyze_spectrum_exact signal_data sample_rate HN
                ltac:(lia)) as (fs0 & ms0 & Hrun0 & _ & _ & Hbins).
    exists fs0, ms0. split; [exact Hrun0 | exact Hbins].
Qed.

Lemma analyze_spectrum_one_sided_rounded_witness :
  rounding (fun x => x) /\
  (1 <= length [1; 0; -1; 0]%R)%nat /\
  (Z.of_nat (length [1; 0; -1; 0]%R) <= 2 ^ 53)%Z /\
  (0 < 8000 <= 2 ^ 32)%Z /\
  exists frequencies magnitudes,
    analyze_spectrum_fl (fun x => x) [1; 0; -1; 0]%R 8000 =
      Ok (frequencies, magnitudes) /\
    length frequencies = (length [1; 0; -1; 0]%R / 2 + 1)%nat /\
    length magnitudes = (length [1; 0; -1; 0]%R / 2 + 1)%nat /\
    nth_error frequencies 0 = Some 0 /\
    (forall k, (k <= length [1; 0; -1; 0]%R / 2)%nat ->
       exists f,
         nth_error frequencies k = Some f /\
         Rabs (f - INR k * IZR 8000 / INR (length [1; 0; -1; 0]%R)) <=
           8 * u * (INR k * IZR 8000 / INR (length [1; 0; -1; 0]%R))) /\
    exists frequencies0 magnitudes0,
      analyze_spectrum [1; 0; -1; 0]%R 8000 =
        Ok (frequencies0, magnitudes0) /\
      forall k, (k <= length [1; 0; -1; 0]%R / 2)%nat ->
        nth_error frequencies0 k =
          Some (INR k * IZR 8000 / INR (length [1; 0; -1; 0]%R)) /\
        nth_error magnitudes0 k = Some (dft_modulus [1; 0; -1; 0]%R k).
Proof.
  split; [exact rounding_id|]. split; [simpl; lia|].
  split; [simpl; lia|]. split; [lia|].
  apply analyze_spectrum_one_sided_rounded;
    [exact rounding_id | simpl; lia | simpl; lia | lia].
Defined.

(** The value of a double, from its fraction. *)
Lemma to_R_frac (x : float) (a : Z) (b : positive) :
  f64.to_frac x = (a, b) -> f64.to_R x = IZR a / IZR (Z.pos b).
Proof. intros H. unfold f64.to_R. now rewrite H. Qed.

(** C4 as stated fails: for a signal of 88 samples at 8000 Hz bin 11
    should be [11 * 8000 / 88 = 1000]; the double that lines 21-22 compute
    for it is [1000.0000000000001], the next double above 1000. *)
Lemma analyze_spectrum_bin_not_exact :
  (1 <= 88)%nat /\ (0 < 8000)%Z /\ (11 <= 88 / 2)%nat /\
  INR 11 * IZR 8000 / INR 88 = 1000 /\
  exists frequencies b,
    f64.frequencies 88 8000 = Ok frequencies /\
    length frequencies = (88 / 2 + 1)%nat /\
    nth_error frequencies 11 = Some b /\
    1000 < f64.to_R b.
Proof.
  split; [lia|]. split; [lia|]. split; [simpl; lia|]. split.
  { rewrite !INR_IZR_INZ. simpl Z.of_nat. lra. }
  destruct (f64.frequencies 88 8000) as [fs|e] eqn:Hf;
    vm_compute in Hf; [|discriminate].
  injection Hf as <-. do 2 eexists. split; [reflexivity|].
  split; [reflexivity|]. split; [reflexivity|].
  rewrite (to_R_frac _ 8796093022208001 8796093022208)
    by (vm_compute; reflexivity).
  lra.
Qed.

(** The double of that bin is within the bound of the rounded model. *)
Example analyze_spectrum_bin_within_bound :
  exists frequencies b,
    f64.frequencies 88 8000 = Ok frequencies /\
    nth_error frequencies 11 = Some b /\
    Rabs (f64.to_R b - 1000) <= 8 * u * 1000.
Proof.
  destruct (f64.frequencies 88 8000) as [fs|e] eqn:Hf;
    vm_compute in Hf; [|discriminate].
  injection Hf as <-. do 2 eexists. split; [reflexivity|].
  split; [reflexivity|].
  rewrite (to_R_frac _ 8796093022208001 8796093022208)
    by (vm_compute; reflexivity).
  unfold u. rewrite Rabs_pos_eq; lra.
Qed.

(** C10, as the code has it: for every non-empty spectrum the frequency
    returned by [find_carrier_frequency] is an element of the frequency
    sequence, at a valid index; when the frequencies are those
    [analyze_spectrum] computes for a signal of [1 <= N <= 2^53] samples
    at a rate [0 < R <= 2^32], the detected carrier is, whatever the
    magnitudes are, not negative and at most [R / 2 * (1 + 2^-50)]: the
    top bin can lie above the Nyquist frequency by its rounding error. *)
Theorem find_carrier_frequency_is_a_bin_rounded (rnd : R -> R)
  (frequencies magnitudes signal_data : list R) (sample_rate : Z) :
  rounding rnd ->
  length frequencies = length magnitudes -> frequencies <> [] ->
  (1 <= length signal_data)%nat ->
  (Z.of_nat (length signal_data) <= 2 ^ 53)%Z ->
  (0 < sample_rate <= 2 ^ 32)%Z ->
  (exists k f,
     find_carrier_frequency frequencies magnitudes = Ok f /\
     (k < length frequencies)%nat /\
     nth_error frequencies k = Some f /\
     In f frequencies) /\
  (exists frequencies' magnitudes',
     analyze_spectrum_fl rnd signal_data sample_rate =
       Ok (frequencies', magnitudes') /\
     length frequencies' = length magnitudes' /\
     forall magnitudes'' : list R,
       length frequencies' = length magnitudes'' ->
       exists f',
         find_carrier_frequency frequencies' magnitudes'' = Ok f' /\
         In f' frequencies' /\
         0 <= f' <= IZR sample_rate / 2 * (1 + 8 * u)).
Proof.
  intros Hrnd Hlen Hne HN Hb Hrate. split.
  - destruct (find_carrier_frequency_run frequencies magnitudes Hlen Hne)
      as (start & rel & f & _ & _ & _ & Hf & Hrun).
    exists (rel + start)%nat, f. repeat split; auto.
    + apply nth_error_Some. congruence.
    + eapply nth_error_In; eauto.
  - pose proof (analyze_spectrum_fl_ok rnd Hrnd signal_data sample_rate
                  HN Hb Hrate) as Hrun.
    cbv zeta in Hrun. set (n := length signal_data) in *.
    match type of Hrun with _ = Ok (?a, ?b) =>
      set (fs := a) in *; set (ms := b) in * end.
    assert (Hlen' : length fs = length ms).
    { subst fs ms. unfold npf.arange. now rewrite !length_map. }
    assert (Hne' : fs <> []).
    { intros Hnil. apply (f_equal (@length R)) in Hnil. subst fs.
      unfold npf.arange in Hnil.
      rewrite !length_map, length_seq in Hnil. simpl in Hnil. lia. }
    exists fs, ms. split; [exact Hrun|]. split; [exact Hlen'|].
    intros ms' Hlen''.
    destruct (find_carrier_frequency_run fs ms' Hlen'' Hne')
      as (start & rel & f & _ & _ & _ & Hf & Hcar).
    exists f. split; [exact Hcar|].
    assert (Hin : In f fs) by (eapply nth_error_In; eauto).
    split; [exact Hin|].
    apply (frequencies_fl_range rnd Hrnd n sample_rate f HN Hb Hrate Hin).
Qed.

Lemma find_carrier_frequency_is_a_bin_rounded_witness :
  rounding (fun x => x) /\
  length [0; 2000; 4000] = length [3; 1; 4] /\ [0; 2000; 4000] <> [] /\
  (1 <= length [1; 0; -1; 0]%R)%nat /\
  (Z.of_nat (length [1; 0; -1; 0]%R) <= 2 ^ 53)%Z /\
  (0 < 8000 <= 2 ^ 32)%Z /\
  (exists k f,
     find_carrier_frequency [0; 2000; 4000] [3; 1; 4] = Ok f /\
     (k < length [0; 2000; 4000]%R)%nat /\
     nth_error [0; 2000; 4000] k = Some f /\
     In f [0; 2000; 4000]) /\
  (exists frequencies' magnitudes',
     analyze_spectrum_fl (fun x => x) [1; 0; -1; 0] 8000 =
       Ok (frequencies', magnitudes') /\
     length frequencies' = length magnitudes' /\
     forall magnitudes'' : list R,
       length frequencies' = length magnitudes'' ->
       exists f',
         find_carrier_frequency frequencies' magnitudes'' = Ok f' /\
         In f' frequencies' /\
         0 <= f' <= IZR 8000 / 2 * (1 + 8 * u)).
Proof.
  split; [exact rounding_id|]. split; [reflexivity|].
  split; [discriminate|]. split; [simpl; lia|]. split; [simpl; lia|].
  split; [lia|].
  apply find_carrier_frequency_is_a_bin_rounded;
    [exact rounding_id | reflexivity | discriminate | simpl; lia
    | simpl; lia | lia].
Defined.

(** C10 as stated fails: for a signal of 2 samples at 2004 Hz the
    frequencies lines 21-22 compute are the doubles [0] and
    [1002.0000000000001]; only the second is above 1000, so it is the
    detected carrier whatever the two magnitudes are, and it is greater
    than the Nyquist frequency [2004 / 2 = 1002]. *)
Lemma find_carrier_frequency_above_nyquist :
  exists frequencies f,
    f64.frequencies 2 2004 = Ok frequencies /\
    length frequencies = 2%nat /\
    ~ (f64.to_R f <= IZR 2004 / 2) /\
    forall m0 m1 : R,
      find_carrier_frequency frequencies [m0; m1] = Ok f.
Proof.
  destruct (f64.frequencies 2 2004) as [fs|e] eqn:Hf;
    vm_compute in Hf; [|discriminate].
  injection Hf as <-. do 2 eexists. split; [reflexivity|].
  split; [reflexivity|].
  assert (Hmask : @np.gt_scalar float _
                    [0%float; 0x1.f500000000001p+9%float] 1000
                  = [false; true]) by (vm_compute; reflexivity).
  split.
  - destruct (f64.to_frac 0x1.f500000000001p+9%float) as [a d] eqn:Hfrac.
    rewrite (to_R_frac _ _ _ Hfrac). vm_compute in Hfrac.
    injection Hfrac as <- <-. lra.
  - intros m0 m1. unfold find_carrier_frequency. rewrite Hmask. reflexivity.
Qed.

(** ** Loader *)

Lemma sum_bounds (row : list R) (lo hi : R) :
  Forall (fun x => lo <= x <= hi) row ->
  INR (length row) * lo <= fold_right Rplus 0 row <= INR (length row) * hi.
Proof.
  induction 1 as [|x row Hx _ IH].
  - simpl. lra.
  - change (length (x :: row)) with (S (length row)). rewrite S_INR.
    simpl fold_right. lra.
Qed.

(** The mean of a row that is not empty lies between any two bounds of
    its elements. *)
Lemma mean_bounds (row : list R) (lo hi : R) :
  (0 < length row)%nat ->
  Forall (fun x => lo <= x <= hi) row ->
  lo <= npf.mean row <= hi.
Proof.
  intros Hlen Hall. pose proof (sum_bounds row lo hi Hall) as [Hlo Hhi].
  assert (Hn : 0 < INR (length row)) by (now apply lt_0_INR).
  unfold npf.mean. split.
  - apply (Rmult_le_reg_r (INR (length row))); [exact Hn|].
    unfold Rdiv. rewrite Rmult_assoc, Rinv_l by lra. lra.
  - apply (Rmult_le_reg_r (INR (length row))); [exact Hn|].
    unfold Rdiv. rewrite Rmult_assoc, Rinv_l by lra. lra.
Qed.

Lemma to_mono_bounds (a : ndarray R) (lo hi : R) :
  wf_shape a -> ndarray_all (fun x => lo <= x <= hi) a ->
  forall x, In x (to_mono a) -> lo <= x <= hi.
Proof.
  destruct a as [l|rows]; simpl; intros Hwf Hall x Hin.
  - rewrite Forall_forall in Hall. now apply Hall.
  - apply in_map_iff in Hin. destruct Hin as (row & <- & Hrow).
    rewrite Forall_forall in Hwf, Hall.
    apply mean_bounds; [specialize (Hwf row Hrow); lia | now apply Hall].
Qed.

Lemma ndarray_all_map {A B : Type} (f : A -> B) (P : A -> Prop)
  (Q : B -> Prop) (a : ndarray A) :
  (forall v, P v -> Q (f v)) ->
  ndarray_all P a -> ndarray_all Q (ndarray_map f a).
Proof.
  intros HPQ. destruct a as [l|rows]; simpl.
  - intros Hall. apply Forall_map. eapply Forall_impl; eauto.
  - intros Hall. apply Forall_map. eapply Forall_impl; [|exact Hall].
    intros row Hrow. apply Forall_map. eapply Forall_impl; eauto.
Qed.

Lemma ndarray_all_and {A : Type} (P Q : A -> Prop) (a : ndarray A) :
  ndarray_all P a -> ndarray_all Q a -> ndarray_all (fun v => P v /\ Q v) a.
Proof.
  destruct a as [l|rows]; simpl; rewrite ?Forall_forall; intros HP HQ.
  - auto.
  - intros row Hrow. specialize (HP row Hrow). specialize (HQ row Hrow).
    rewrite Forall_forall in *. auto.
Qed.

Lemma wf_shape_map {A B : Type} (f : A -> B) (a : ndarray A) :
  wf_shape a -> wf_shape (ndarray_map f a).
Proof.
  destruct a as [l|rows]; simpl; [auto|].
  intros Hwf. apply Forall_map. eapply Forall_impl; [|exact Hwf].
  intros row. simpl. now rewrite length_map.
Qed.

(** One signed code divided by the largest value of its dtype. *)
Lemma rescaled_code_range (d : int_dtype) (v : Z) :
  int_kind d = kind_i -> in_dtype d v ->
  - 1 - 1 / IZR (iinfo_max d) <= IZR v / IZR (iinfo_max d) <= 1 /\
  (v <> iinfo_min d -> - 1 <= IZR v / IZR (iinfo_max d)).
Proof.
  intros Hkind [Hlo Hhi].
  assert (Hmin : (iinfo_min d = - iinfo_max d - 1)%Z /\ (0 < iinfo_max d)%Z).
  { destruct d; simpl; try discriminate; lia. }
  destruct Hmin as [Hmin Hpos]. rewrite Hmin in *.
  assert (Hge : v <> (- iinfo_max d - 1)%Z -> IZR (- iinfo_max d) <= IZR v).
  { intros Hne. apply IZR_le. lia. }
  apply IZR_le in Hlo, Hhi. apply IZR_lt in Hpos.
  rewrite minus_IZR, opp_IZR in Hlo. rewrite opp_IZR in Hge.
  set (m := IZR (iinfo_max d)) in *. set (x := IZR v) in *.
  assert (Hdiv : forall y, y / m * m = y) by (intros; field; lra).
  repeat split.
  - apply (Rmult_le_reg_r m); [exact Hpos|].
    rewrite Hdiv. unfold Rminus. rewrite Rmult_plus_distr_r.
    replace (- (1 / m) * m) with (- (1 / m * m)) by ring. rewrite Hdiv. lra.
  - apply (Rmult_le_reg_r m); [exact Hpos|]. rewrite Hdiv. lra.
  - intros Hne. specialize (Hge Hne).
    apply (Rmult_le_reg_r m); [exact Hpos|]. rewrite Hdiv. lra.
Qed.

(** Unsigned 8-bit data are not of kind [i]: they keep their values. *)
Example load_audio_uint8_unscaled :
  load_audio (8000%Z, IntData uint8 (Arr1 [0; 128; 255]%Z)) =
    (8000%Z, [0; 128; 255]).
Proof. reflexivity. Qed.

(** A stereo frame becomes the mean of its two channels. *)
Example load_audio_stereo_mean :
  load_audio (8000%Z, FloatData (Arr2 [[1; 0]; [0.5; -0.5]])) =
    (8000%Z, [0.5; 0]).
Proof.
  simpl. unfold npf.mean. simpl. repeat f_equal; lra.
Qed.

(** C3, as the code has it: for every signed integer PCM input each sample
    that [load_audio] returns lies between [-1 - 1/max] and [1], where
    [max] is the largest value of the dtype, and in [[-1, 1]] when no
    input code is the most negative value of the dtype; floating-point
    input is not scaled. *)
Theorem load_audio_signed_range (sample_rate : Z) (d : int_dtype)
  (a : ndarray Z) (fa : ndarray R) :
  int_kind d = kind_i -> wf_wav (IntData d a) ->
  (forall x, In x (snd (load_audio (sample_rate, IntData d a))) ->
     - 1 - 1 / IZR (iinfo_max d) <= x <= 1 /\
     (ndarray_all (fun v => v <> iinfo_min d) a -> - 1 <= x <= 1)) /\
  load_audio (sample_rate, FloatData fa) = (sample_rate, to_mono fa).
Proof.
  intros Hkind [Hcodes Hshape]. split; [|reflexivity].
  intros x Hin. simpl in Hin. rewrite Hkind in Hin.
  set (f := fun v => IZR v / IZR (iinfo_max d)) in *.
  split.
  - apply (to_mono_bounds (ndarray_map f a)); auto.
    + now apply wf_shape_map.
    + apply (ndarray_all_map f (in_dtype d)); [|exact Hcodes].
      intros v Hv. now apply rescaled_code_range.
  - intros Hnomin.
    apply (to_mono_bounds (ndarray_map f a)); auto.
    + now apply wf_shape_map.
    + apply (ndarray_all_map f
               (fun v => in_dtype d v /\ v <> iinfo_min d)).
      * intros v [Hv Hne].
        destruct (rescaled_code_range d v Hkind Hv) as [[_ Hhi] Hlo].
        split; [now apply Hlo | exact Hhi].
      * now apply ndarray_all_and.
Qed.

Lemma load_audio_signed_range_witness :
  int_kind int16 = kind_i /\
  wf_wav (IntData int16 (Arr2 [[32767; -32768]; [-20000; 12345]]%Z)) /\
  (forall x,
     In x (snd (load_audio
                  (44100%Z,
                   IntData int16 (Arr2 [[32767; -32768]; [-20000; 12345]]%Z)))) ->
     - 1 - 1 / IZR (iinfo_max int16) <= x <= 1 /\
     (ndarray_all (fun v => v <> iinfo_min int16)
        (Arr2 [[32767; -32768]; [-20000; 12345]]%Z) -> - 1 <= x <= 1)) /\
  load_audio (44100%Z, FloatData (Arr1 [0.5; -1.5])) =
    (44100%Z, to_mono (Arr1 [0.5; -1.5])).
Proof.
  assert (Hwf : wf_wav (IntData int16 (Arr2 [[32767; -32768]; [-20000; 12345]]%Z))).
  { split; simpl; repeat constructor; unfold in_dtype; simpl; lia. }
  split; [reflexivity|]. split; [exact Hwf|].
  apply load_audio_signed_range; [reflexivity | exact Hwf].
Defined.

(** C3 as stated fails: the [int16] code [-32768] is well formed integer
    PCM and its sample, [-32768 / 32767], is below [-1]. *)
Lemma load_audio_int16_min_below_range :
  wf_wav (IntData int16 (Arr1 [-32768]%Z)) /\
  exists x,
    In x (snd (load_audio (44100%Z, IntData int16 (Arr1 [-32768]%Z)))) /\
    ~ (- 1 <= x <= 1).
Proof.
  split.
  - split; simpl; [|exact I]. repeat constructor; simpl; lia.
  - exists (-32768 / 32767). split.
    + simpl. left. reflexivity.
    + lra.
Qed.

(** ** Saving and loading again *)

Lemma fold_left_Rmax_upper (l : list R) (x : R) :
  x <= fold_left Rmax l x /\ Forall (fun y => y <= fold_left Rmax l x) l.
Proof.
  revert x. induction l as [|y l IH]; intros x; simpl.
  - split; [lra | constructor].
  - destruct (IH (Rmax x y)) as [Hx Hall].
    pose proof (Rmax_l x y). pose proof (Rmax_r x y).
    split; [lra|]. constructor; [lra | exact Hall].
Qed.

Lemma fold_left_Rmax_in (l : list R) (x : R) :
  In (fold_left Rmax l x) (x :: l).
Proof.
  revert x. induction l as [|y l IH]; intros x; simpl.
  - now left.
  - destruct (IH (Rmax x y)) as [H|H].
    + revert H. apply Rmax_case; intros <-; tauto.
    + tauto.
Qed.

(** [np.max(np.abs(signal_data))] is the peak of a signal with a sample. *)
Lemma max_abs_is_peak (signal_data : list R) :
  signal_data <> [] ->
  exists peak, npf.max (map Rabs signal_data) = Ok peak /\
               is_peak signal_data peak.
Proof.
  destruct signal_data as [|x l]; [congruence|]. intros _.
  simpl. eexists. split; [reflexivity|].
  destruct (fold_left_Rmax_upper (map Rabs l) (Rabs x)) as [Hx Hall].
  split.
  - intros y [<-|Hy]; [exact Hx|].
    rewrite Forall_forall in Hall. apply Hall. now apply in_map.
  - destruct (fold_left_Rmax_in (map Rabs l) (Rabs x)) as [H|H].
    + exists x. split; [now left | exact H].
    + apply in_map_iff in H. destruct H as (y & Hy & Hin).
      exists y. split; [now right | exact Hy].
Qed.

(** A zero peak means that every sample is zero: the quotients of the
    normalisation are then all [0 / 0]. *)
Lemma zero_peak_all_zero (signal_data : list R) :
  is_peak signal_data 0 -> Forall (fun x => x = 0) signal_data.
Proof.
  intros [Hle _]. apply Forall_forall. intros x Hx.
  specialize (Hle x Hx). pose proof (Rabs_pos x).
  destruct (Req_dec x 0) as [|Hne]; [assumption|].
  apply Rabs_pos_lt in Hne. lra.
Qed.

Lemma is_peak_positive (signal_data : list R) (peak : R) :
  is_peak signal_data peak ->
  (exists x, In x signal_data /\ x <> 0) -> 0 < peak.
Proof.
  intros [Hle _] (x & Hx & Hne).
  specialize (Hle x Hx). apply Rabs_pos_lt in Hne. lra.
Qed.

(** Rounding towards zero moves a value by less than one and keeps it
    inside the bounds [-32767 .. 32767] it was in. *)
Lemma Rtrunc_near (y : R) :
  - 32767 <= y <= 32767 ->
  Rabs (IZR (Rtrunc y) - y) < 1 /\ (- 32767 <= Rtrunc y <= 32767)%Z.
Proof.
  intros [Hlo Hhi]. unfold Rtrunc. destruct (Rle_dec 0 y) as [Hy|Hy].
  - pose proof (Zfloor_bound y) as [Hf1 Hf2].
    assert (H0 : (0 <= Zfloor y)%Z) by (now apply Zfloor_lub).
    split.
    + apply Rabs_def1; lra.
    + split; [lia|]. apply le_IZR. lra.
  - pose proof (Zceil_bound y) as [Hc1 Hc2].
    split.
    + apply Rabs_def1; lra.
    + split.
      * apply le_IZR. lra.
      * assert (Hlt : (Zceil y < 1)%Z) by (apply lt_IZR; lra). lia.
Qed.

(** [save_audio] on a signal with a sample that is not zero: the peak is
    positive and the codes are the truncated multiples of [32767]. *)
Lemma save_audio_codes (signal_data : list R) (sample_rate : Z) :
  (exists x, In x signal_data /\ x <> 0) ->
  exists peak,
    is_peak signal_data peak /\ 0 < peak /\
    save_audio signal_data sample_rate =
      Ok (sample_rate,
          Codes (map (fun x => Rtrunc (x / peak * 32767)) signal_data)).
Proof.
  intros Hnz.
  assert (Hne : signal_data <> []).
  { destruct Hnz as (x & Hx & _). now destruct signal_data. }
  destruct (max_abs_is_peak signal_data Hne) as (peak & Hmax & Hpeak).
  pose proof (is_peak_positive signal_data peak Hpeak Hnz) as Hpos.
  exists peak. repeat split; try apply Hpeak; auto.
  unfold save_audio. rewrite Hmax. simpl. unfold npf.div_scalar.
  destruct (Req_dec_T peak 0) as [H0|_]; [lra|].
  simpl. now rewrite !map_map.
Qed.

Lemma normalized_sample_range (signal_data : list R) (peak x : R) :
  is_peak signal_data peak -> 0 < peak -> In x signal_data ->
  - 32767 <= x / peak * 32767 <= 32767.
Proof.
  intros [Hle _] Hpos Hx. specialize (Hle x Hx).
  assert (Hq : - 1 <= x / peak <= 1).
  { assert (Hdiv : x / peak * peak = x) by (field; lra).
    destruct (Rcase_abs x) as [Hneg|Hnn].
    - rewrite (Rabs_left x Hneg) in Hle. split.
      + apply (Rmult_le_reg_r peak); [exact Hpos|]. rewrite Hdiv. lra.
      + apply (Rmult_le_reg_r peak); [exact Hpos|]. rewrite Hdiv. lra.
    - rewrite (Rabs_right x Hnn) in Hle. split.
      + apply (Rmult_le_reg_r peak); [exact Hpos|]. rewrite Hdiv. lra.
      + apply (Rmult_le_reg_r peak); [exact Hpos|]. rewrite Hdiv. lra. }
  lra.
Qed.

(** The file [save_audio] writes holds codes of [int16]. *)
Lemma save_audio_writes_int16 (signal_data : list R) (sample_rate : Z) :
  (exists x, In x signal_data /\ x <> 0) ->
  exists saved file,
    save_audio signal_data sample_rate = Ok saved /\
    written_file saved = Some file /\ wf_wav (snd file).
Proof.
  intros Hnz.
  destruct (save_audio_codes signal_data sample_rate Hnz)
    as (peak & Hpeak & Hpos & Hsave).
  do 2 eexists. split; [exact Hsave|]. split; [reflexivity|].
  simpl. split; [|exact I]. apply Forall_map, Forall_forall.
  intros x Hin.
  pose proof (normalized_sample_range signal_data peak x Hpeak Hpos Hin) as Hr.
  destruct (Rtrunc_near _ Hr) as [_ Hcode]. unfold in_dtype. simpl. lia.
Qed.

Section RoundedSave.
Variable rnd : R -> R.
Hypothesis Hrnd : rounding rnd.

Lemma rnd_unit_range (t : R) : - 1 <= t <= 1 -> - 1 <= rnd t <= 1.
Proof.
  intros [Hlo Hhi].
  assert (Hb : 1 <= big) by (unfold big; lra).
  assert (Ht : Rabs t <= big) by (apply Rabs_le; lra).
  assert (H1 : Rabs 1 <= big) by (rewrite Rabs_pos_eq; lra).
  assert (Hm1 : Rabs (-1) <= big) by (apply Rabs_le; lra).
  pose proof (rnd_mono rnd Hrnd (-1) t Hm1 Ht Hlo) as Hl.
  pose proof (rnd_mono rnd Hrnd t 1 Ht H1 Hhi) as Hh.
  rewrite (rnd_int rnd Hrnd (-1)) in Hl by lia.
  rewrite (rnd_int rnd Hrnd 1) in Hh by lia. lra.
Qed.

Lemma rnd_code_range (w : R) :
  - 32767 <= w <= 32767 -> - 32767 <= rnd w <= 32767.
Proof.
  intros [Hlo Hhi].
  assert (Hb : 32767 <= big) by (unfold big; lra).
  assert (Ht : Rabs w <= big) by (apply Rabs_le; lra).
  assert (H1 : Rabs 32767 <= big) by (rewrite Rabs_pos_eq; lra).
  assert (Hm1 : Rabs (-32767) <= big) by (apply Rabs_le; lra).
  pose proof (rnd_mono rnd Hrnd (-32767) w Hm1 Ht Hlo) as Hl.
  pose proof (rnd_mono rnd Hrnd w 32767 Ht H1 Hhi) as Hh.
  rewrite (rnd_int rnd Hrnd (-32767)) in Hl by lia.
  rewrite (rnd_int rnd Hrnd 32767) in Hh by lia. lra.
Qed.

(** One sample on its way through [save_audio] and [load_audio]: the
    quotient by the peak, the product with 32767, the cast to a code and
    the quotient by 32767, every float operation rounded. *)
Lemma roundtrip_sample_fl (x peak : R) :
  0 < peak -> Rabs x <= peak ->
  let c := Rtrunc (rnd (rnd (x / peak) * 32767)) in
  (- 32767 <= c <= 32767)%Z /\
  Rabs (rnd (rnd (IZR c) / rnd (IZR 32767)) - x / peak) < 1 / 32767 + 4 * u.
Proof.
  intros Hpos Hx c.
  assert (Hb : 32767 <= big) by (unfold big; lra).
  set (t := x / peak) in *.
  assert (Ht : - 1 <= t <= 1).
  { assert (Hdiv : t * peak = x) by (subst t; field; lra).
    apply Rabs_le_between in Hx. split.
    - apply (Rmult_le_reg_r peak); [exact Hpos|]. rewrite Hdiv. lra.
    - apply (Rmult_le_reg_r peak); [exact Hpos|]. rewrite Hdiv. lra. }
  assert (Hta : Rabs t <= 1) by (apply Rabs_le; lra).
  pose proof (rnd_abs rnd Hrnd t ltac:(lra)) as Hq.
  pose proof (rnd_unit_range t Ht) as Hqr.
  set (q := rnd t) in *.
  set (w := q * 32767) in *.
  assert (Hw : - 32767 <= w <= 32767) by (subst w; lra).
  assert (Hwa : Rabs w <= 32767) by (apply Rabs_le; lra).
  pose proof (rnd_abs rnd Hrnd w ltac:(lra)) as Hy.
  pose proof (rnd_code_range w Hw) as Hyr.
  set (y := rnd w) in *.
  destruct (Rtrunc_near y Hyr) as [Hnear Hc]. fold c in Hnear, Hc.
  split; [exact Hc|].
  rewrite (rnd_int rnd Hrnd c) by lia.
  rewrite (rnd_int rnd Hrnd 32767) by lia.
  set (v := IZR c / 32767).
  assert (Hcr : - 32767 <= IZR c <= 32767).
  { split; [apply (IZR_le (-32767)) | apply (IZR_le _ 32767)]; lia. }
  assert (Hv : - 1 <= v <= 1) by (subst v; lra).
  assert (Hva : Rabs v <= 1) by (apply Rabs_le; lra).
  pose proof (rnd_abs rnd Hrnd v ltac:(lra)) as Ho.
  apply Rabs_le_between in Hq, Hy, Ho.
  apply Rabs_def2 in Hnear.
  subst v w. unfold u, eta in *. apply Rabs_def1; lra.
Qed.

(** [save_audio] with its roundings, on a signal with a sample that is
    not zero: the peak is positive and the codes are the truncated
    rounded products. *)
Lemma save_audio_fl_codes (signal_data : list R) (sample_rate : Z) :
  (exists x, In x signal_data /\ x <> 0) ->
  exists peak,
    is_peak signal_data peak /\ 0 < peak /\
    save_audio_fl rnd signal_data sample_rate =
      Ok (sample_rate,
          Codes (map (fun x => Rtrunc (rnd (rnd (x / peak) * 32767)))
                   signal_data)).
Proof.
  intros Hnz.
  assert (Hne : signal_data <> []).
  { destruct Hnz as (x & Hx & _). now destruct signal_data. }
  destruct (max_abs_is_peak signal_data Hne) as (peak & Hmax & Hpeak).
  pose proof (is_peak_positive signal_data peak Hpeak Hnz) as Hpos.
  exists peak. repeat split; try apply Hpeak; auto.
  unfold save_audio_fl. rewrite Hmax. cbn [bind]. unfold div_scalar_fl.
  destruct (Req_dec_T peak 0) as [H0|_]; [lra|].
  cbn [floats_map astype_int16]. now rewrite !map_map.
Qed.

End RoundedSave.

(** C8, as the code has it: saving a signal with a sample that is not
    zero and loading the file again gives a signal of the same length and
    sample rate whose samples differ by less than [1/32767 + 4 * u]
    ([u = 2^-53], so [1/32767 + 2^-51]) from the original samples divided
    by the peak of the signal: one code of quantisation and the rounding
    of the two divisions and of the product. *)
Theorem save_load_roundtrip_rounded (rnd : R -> R) (signal_data : list R)
  (sample_rate : Z) :
  rounding rnd ->
  (exists x, In x signal_data /\ x <> 0) -> (0 < sample_rate)%Z ->
  exists peak out,
    is_peak signal_data peak /\
    reloads_fl rnd signal_data sample_rate out /\
    length out = length signal_data /\
    forall i x y, nth_error signal_data i = Some x ->
      nth_error out i = Some y ->
      Rabs (y - x / peak) < 1 / 32767 + 4 * u.
Proof.
  intros Hrnd Hnz _.
  destruct (save_audio_fl_codes rnd signal_data sample_rate Hnz)
    as (peak & Hpeak & Hpos & Hsave).
  exists peak. eexists. split; [exact Hpeak|]. split.
  { do 2 eexists. split; [exact Hsave|]. split; reflexivity. }
  rewrite !length_map. split; [reflexivity|].
  intros i x y Hx Hy. rewrite map_map, nth_error_map, Hx in Hy.
  cbn [option_map] in Hy. injection Hy as <-.
  assert (Hin : In x signal_data) by (eapply nth_error_In; eauto).
  destruct Hpeak as [Hle _].
  apply (roundtrip_sample_fl rnd Hrnd x peak Hpos (Hle x Hin)).
Qed.

Lemma save_load_roundtrip_rounded_witness :
  rounding (fun x => x) /\
  (exists x, In x [0.25; -0.5; 0] /\ x <> 0) /\ (0 < 44100)%Z /\
  exists peak out,
    is_peak [0.25; -0.5; 0] peak /\
    reloads_fl (fun x => x) [0.25; -0.5; 0] 44100 out /\
    length out = length [0.25; -0.5; 0] /\
    forall i x y, nth_error [0.25; -0.5; 0] i = Some x ->
      nth_error out i = Some y ->
      Rabs (y - x / peak) < 1 / 32767 + 4 * u.
Proof.
  assert (Hnz : exists x, In x [0.25; -0.5; 0] /\ x <> 0).
  { exists 0.25. split; [simpl; tauto | lra]. }
  split; [exact rounding_id|]. split; [exact Hnz|]. split; [lia|].
  apply save_load_roundtrip_rounded; [exact rounding_id | exact Hnz | lia].
Defined.

(** The bound [1/32767] alone does not hold in double precision: the
    signal [[6775.862091494491; 12345.678]] is saved as the codes 17983
    and 32767, the first of which loads as [0.5488143559068575], more than
    [1/32767] below the first sample divided by the peak (the product
    with 32767 rounds to [17983.999999999996]), and within the bound of
    the rounded model. *)
Example save_load_roundtrip_rounding :
  let x := 0x1.a77dcb2073700p+12%float in
  let peak := 0x1.81cd6c8b43958p+13%float in
  exists y,
    f64.save_audio [x; peak] 44100 = Ok (44100%Z, Codes [17983; 32767]%Z) /\
    f64.load_audio_int16 44100 [17983; 32767]%Z = (44100%Z, [y; 1%float]) /\
    1 / 32767 < Rabs (f64.to_R y - f64.to_R x / f64.to_R peak)
      < 1 / 32767 + 4 * u.
Proof.
  intros x peak. eexists. split; [vm_compute; reflexivity|].
  split; [vm_compute; reflexivity|].
  destruct (f64.to_frac 0x1.18fe31fc63f8cp-1%float) as [a d] eqn:Hy.
  rewrite (to_R_frac _ _ _ Hy). vm_compute in Hy. injection Hy as <- <-.
  destruct (f64.to_frac x) as [a d] eqn:Hx.
  rewrite (to_R_frac _ _ _ Hx). vm_compute in Hx. injection Hx as <- <-.
  destruct (f64.to_frac peak) as [a d] eqn:Hp.
  rewrite (to_R_frac _ _ _ Hp). vm_compute in Hp. injection Hp as <- <-.
  unfold u. rewrite Rabs_left; lra.
Qed.

Lemma Rtrunc_IZR (z : Z) : Rtrunc (IZR z) = z.
Proof.
  unfold Rtrunc. destruct (Rle_dec 0 (IZR z)).
  - apply ZfloorZ.
  - unfold Zceil. rewrite <- opp_IZR, ZfloorZ. lia.
Qed.

(** C8 as stated fails: the one-sample signal [0.5] has peak [0.5], is
    saved as the code [32767] and comes back as [1], which is [0.5] away
    from the original sample. *)
Lemma save_load_roundtrip_rescales :
  (exists x, In x [0.5] /\ x <> 0) /\ (0 < 44100)%Z /\
  reloads [0.5] 44100 [1] /\
  ~ (Rabs (1 - 0.5) <= 1 / 32767).
Proof.
  split; [exists 0.5; split; [now left | lra]|]. split; [lia|]. split.
  - exists (44100%Z, Codes [32767%Z]).
    exists (44100%Z, IntData int16 (Arr1 [32767%Z])).
    split; [|split].
    + unfold save_audio. simpl. unfold npf.div_scalar.
      assert (Habs : Rabs 0.5 = 0.5) by (apply Rabs_pos_eq; lra).
      destruct (Req_dec_T (Rabs 0.5) 0) as [H0|_]; [lra|].
      simpl. rewrite Habs.
      replace (0.5 / 0.5 * 32767) with (IZR 32767) by lra.
      now rewrite Rtrunc_IZR.
    + reflexivity.
    + simpl. do 3 f_equal. field.
  - rewrite Rabs_pos_eq by lra. lra.
Qed.

(** ** Degenerate signals *)

Lemma dft_from_zeros (n k : nat) (a : list R) :
  Forall (fun x => x = 0) a -> forall m,
  fft.dft_from n k m a (mkC 0 0) = mkC 0 0.
Proof.
  induction 1 as [|x a Hx _ IH]; intros m; simpl; [reflexivity|].
  subst x. unfold Cadd, Crot. simpl.
  replace (0 + 0 * cos (2 * PI * INR m * INR k / INR n)) with 0 by ring.
  replace (0 + - (0 * sin (2 * PI * INR m * INR k / INR n))) with 0 by ring.
  apply IH.
Qed.

(** The spectrum of a silent signal has only zero magnitudes, and carrier
    detection on it raises nothing. *)
Lemma silent_spectrum (signal_data : list R) (sample_rate : Z) :
  signal_data <> [] -> Forall (fun x => x = 0) signal_data ->
  (0 < sample_rate)%Z ->
  exists frequencies magnitudes f,
    analyze_spectrum signal_data sample_rate = Ok (frequencies, magnitudes) /\
    Forall (fun m => m = 0) magnitudes /\
    find_carrier_frequency frequencies magnitudes = Ok f.
Proof.
  intros Hne Hzero Hrate.
  assert (Hr : sample_rate <> 0%Z) by lia.
  pose proof (analyze_spectrum_ok signal_data sample_rate Hne Hr) as Hrun.
  cbv zeta in Hrun.
  match type of Hrun with _ = Ok (?a, ?b) =>
    set (fs := a) in *; set (ms := b) in * end.
  assert (Hlen : length fs = length ms).
  { subst fs ms. unfold npf.arange. now rewrite !length_map. }
  assert (Hfs : fs <> []).
  { intros Hnil. apply (f_equal (@length R)) in Hnil. subst fs.
    unfold npf.arange in Hnil.
    rewrite !length_map, length_seq in Hnil. simpl in Hnil. lia. }
  destruct (find_carrier_frequency_run fs ms Hlen Hfs)
    as (start & rel & f & _ & _ & _ & _ & Hcar).
  exists fs, ms, f. repeat split; auto.
  subst ms. rewrite map_map. apply Forall_map, Forall_forall. intros k _.
  rewrite dft_from_zeros by exact Hzero.
  unfold Cabs. simpl. rewrite Rmult_0_l, Rplus_0_l. apply sqrt_0.
Qed.

(** [save_audio] on a silent signal: the peak is zero, no quotient of the
    normalisation is a finite number, and the file is written all the
    same. *)
Lemma save_audio_silent (signal_data : list R) (sample_rate : Z) :
  signal_data <> [] -> Forall (fun x => x = 0) signal_data ->
  save_audio signal_data sample_rate =
    Ok (sample_rate, Unspecified (length signal_data)).
Proof.
  intros Hne Hzero.
  destruct (max_abs_is_peak signal_data Hne) as (peak & Hmax & _ & x & Hx & Hp).
  rewrite Forall_forall in Hzero. rewrite (Hzero x Hx), Rabs_R0 in Hp.
  subst peak. unfold save_audio. rewrite Hmax. simpl. unfold npf.div_scalar.
  destruct (Req_dec_T 0 0) as [_|H0]; [reflexivity | now elim H0].
Qed.

(** C6, as the code has it: there is no DegenerateSignal error.  An
    empty input makes [analyze_spectrum] raise [ZeroDivisionError], and
    [find_carrier_frequency] and [save_audio] raise [ValueError] on an
    empty array.  A silent input that is not empty raises nothing: its
    spectrum has zero magnitudes, carrier detection returns a frequency,
    and [save_audio] divides by the zero peak and writes the cast of
    samples that are not finite. *)
Theorem degenerate_signal_outcomes (signal_data : list R) (sample_rate : Z) :
  signal_data <> [] -> Forall (fun x => x = 0) signal_data ->
  (0 < sample_rate)%Z ->
  analyze_spectrum [] sample_rate = Raise ZeroDivisionError /\
  find_carrier_frequency (@nil R) (@nil R) = Raise ValueError /\
  save_audio [] sample_rate = Raise ValueError /\
  (exists frequencies magnitudes f,
     analyze_spectrum signal_data sample_rate = Ok (frequencies, magnitudes) /\
     Forall (fun m => m = 0) magnitudes /\
     find_carrier_frequency frequencies magnitudes = Ok f) /\
  save_audio signal_data sample_rate =
    Ok (sample_rate, Unspecified (length signal_data)).
Proof.
  intros Hne Hzero Hrate. split; [|split; [|split; [|split]]].
  - unfold analyze_spectrum, py_div.
    destruct (Req_dec_T (IZR sample_rate) 0) as [|_]; [reflexivity|].
    simpl. unfold fft.rfftfreq, py_div. simpl.
    destruct (Req_dec_T (0 * (1 / IZR sample_rate)) 0) as [|H0];
      [reflexivity|].
    elim H0. ring.
  - reflexivity.
  - reflexivity.
  - now apply silent_spectrum.
  - now apply save_audio_silent.
Qed.

Lemma degenerate_signal_outcomes_witness :
  [0; 0; 0; 0] <> [] /\ Forall (fun x => x = 0) [0; 0; 0; 0] /\
  (0 < 44100)%Z /\
  analyze_spectrum [] 44100 = Raise ZeroDivisionError /\
  find_carrier_frequency (@nil R) (@nil R) = Raise ValueError /\
  save_audio [] 44100 = Raise ValueError /\
  (exists frequencies magnitudes f,
     analyze_spectrum [0; 0; 0; 0] 44100 = Ok (frequencies, magnitudes) /\
     Forall (fun m => m = 0) magnitudes /\
     find_carrier_frequency frequencies magnitudes = Ok f) /\
  save_audio [0; 0; 0; 0] 44100 =
    Ok (44100%Z, Unspecified (length [0; 0; 0; 0])).
Proof.
  assert (Hz : Forall (fun x => x = 0) [0; 0; 0; 0])
    by (repeat constructor).
  split; [discriminate|]. split; [exact Hz|]. split; [lia|].
  apply degenerate_signal_outcomes; [discriminate | exact Hz | lia].
Defined.

(** C6 as stated fails: the silent signal [[0; 0]] is degenerate and
    [save_audio] raises nothing on it; it writes a file from samples that
    are not finite. *)
Lemma save_audio_silent_raises_nothing :
  degenerate [0; 0] /\
  save_audio [0; 0] 44100 = Ok (44100%Z, Unspecified 2) /\
  ~ raises (save_audio [0; 0] 44100).
Proof.
  assert (Hsave : save_audio [0; 0] 44100 = Ok (44100%Z, Unspecified 2)).
  { apply (save_audio_silent [0; 0] 44100); [discriminate|].
    repeat constructor. }
  split; [right; repeat constructor|]. split; [exact Hsave|].
  intros [e He]. rewrite Hsave in He. discriminate.
Qed.

(** ** Band-pass filter *)

(** With a sample rate other than zero the stage goes straight to the
    design call, whatever the cut-offs are. *)
Lemma apply_bandpass_filter_calls_butter (signal_data : list R)
  (sample_rate : Z) (lowcut highcut : R) (order : Z) :
  sample_rate <> 0%Z ->
  apply_bandpass_filter signal_data sample_rate lowcut highcut order =
    Butter order (lowcut / (0.5 * IZR sample_rate))
      (highcut / (0.5 * IZR sample_rate))
      (fun ba =>
         Filtfilt (fst ba) (snd ba) signal_data (fun filtered_signal =>
         Done (Ok filtered_signal))).
Proof.
  intros Hrate. unfold apply_bandpass_filter, py_div.
  assert (Hr : IZR sample_rate <> 0) by (now apply not_0_IZR).
  destruct (Req_dec_T (0.5 * IZR sample_rate) 0) as [H0|_]; [|reflexivity].
  exfalso. lra.
Qed.

(** C7, as the code has it: the stage makes no check of the cut-offs of
    its own.  For every filter specification, valid or not, and every
    positive sample rate it divides the cut-offs by the Nyquist frequency
    and calls the design routine with them; the result of the stage is
    what the library makes of the two calls, and an error the design
    routine raises is not caught, so it ends the stage. *)
Theorem apply_bandpass_filter_delegates (signal_data : list R)
  (sample_rate : Z) (lowcut highcut : R) (order : Z) :
  (0 < sample_rate)%Z ->
  apply_bandpass_filter signal_data sample_rate lowcut highcut order =
    Butter order (lowcut / (0.5 * IZR sample_rate))
      (highcut / (0.5 * IZR sample_rate))
      (fun ba =>
         Filtfilt (fst ba) (snd ba) signal_data (fun filtered_signal =>
         Done (Ok filtered_signal))) /\
  forall lib : scipy,
    run lib (apply_bandpass_filter signal_data sample_rate lowcut highcut order)
    = (ba <- butter lib order (lowcut / (0.5 * IZR sample_rate))
               (highcut / (0.5 * IZR sample_rate)) ;;
       filtfilt lib (fst ba) (snd ba) signal_data) /\
    forall e : exn,
      butter lib order (lowcut / (0.5 * IZR sample_rate))
        (highcut / (0.5 * IZR sample_rate)) = Raise e ->
      run lib
        (apply_bandpass_filter signal_data sample_rate lowcut highcut order)
      = Raise e.
Proof.
  intros Hrate.
  assert (Hcall := apply_bandpass_filter_calls_butter signal_data sample_rate
                     lowcut highcut order ltac:(lia)).
  split; [exact Hcall|].
  intros lib. rewrite Hcall. simpl. split.
  - destruct (butter lib order _ _) as [ba|e]; simpl; [|reflexivity].
    now destruct (filtfilt lib (fst ba) (snd ba) signal_data).
  - intros e He. now rewrite He.
Qed.

Lemma apply_bandpass_filter_delegates_witness :
  (0 < 44100)%Z /\
  apply_bandpass_filter [1; 2; 3] 44100 20 6000 5 =
    Butter 5 (20 / (0.5 * IZR 44100)) (6000 / (0.5 * IZR 44100))
      (fun ba =>
         Filtfilt (fst ba) (snd ba) [1; 2; 3] (fun filtered_signal =>
         Done (Ok filtered_signal))) /\
  forall lib : scipy,
    run lib (apply_bandpass_filter [1; 2; 3] 44100 20 6000 5)
    = (ba <- butter lib 5 (20 / (0.5 * IZR 44100))
               (6000 / (0.5 * IZR 44100)) ;;
       filtfilt lib (fst ba) (snd ba) [1; 2; 3]) /\
    forall e : exn,
      butter lib 5 (20 / (0.5 * IZR 44100)) (6000 / (0.5 * IZR 44100))
      = Raise e ->
      run lib (apply_bandpass_filter [1; 2; 3] 44100 20 6000 5) = Raise e.
Proof.
  split; [lia | apply apply_bandpass_filter_delegates; lia].
Defined.

(** C7 as stated fails: with the cut-offs [6000] and [20] in the wrong
    order, or a low cut-off of [0], the specification is invalid, and the
    stage still begins with the design call instead of an error. *)
Lemma apply_bandpass_filter_no_check :
  ~ valid_filter_spec 44100 6000 20 /\
  ~ fails_before_design (apply_bandpass_filter [1; 2; 3] 44100 6000 20 5) /\
  ~ valid_filter_spec 44100 0 6000 /\
  ~ fails_before_design (apply_bandpass_filter [1; 2; 3] 44100 0 6000 5).
Proof.
  assert (Hcall : forall lowcut highcut,
             ~ fails_before_design
                 (apply_bandpass_filter [1; 2; 3] 44100 lowcut highcut 5)).
  { intros lowcut highcut [e He].
    rewrite apply_bandpass_filter_calls_butter in He by lia. discriminate. }
  unfold valid_filter_spec. repeat split; try apply Hcall; lra.
Qed.

(** * Further properties of the code *)

(** ** Carrier detection on arrays of one length *)

(** X1: Whatever the order of the frequencies, the search starts at the first
    bin above 1000 Hz and covers every bin from there on: the bin returned
    is the first one of largest magnitude among them. *)
Theorem find_carrier_frequency_searches_from_start
  (frequencies magnitudes : list R) :
  length frequencies = length magnitudes ->
  (exists f, In f frequencies /\ 1000 < f) ->
  exists s fs k f m,
    find_carrier_frequency frequencies magnitudes = Ok f /\
    nth_error frequencies s = Some fs /\ 1000 < fs /\
    (forall j fj, (j < s)%nat -> nth_error frequencies j = Some fj ->
       fj <= 1000) /\
    (s <= k)%nat /\ bin frequencies magnitudes k f m /\
    (forall j mj, (s <= j)%nat -> nth_error magnitudes j = Some mj ->
       mj <= m) /\
    (forall j mj, (s <= j < k)%nat -> nth_error magnitudes j = Some mj ->
       mj < m).
Proof.
  intros Hlen (f1 & Hin & Hf1).
  assert (Hne : frequencies <> []) by (now destruct frequencies).
  destruct (find_carrier_frequency_run frequencies magnitudes Hlen Hne)
    as (start & rel & f & _ & Hstart & Hrel & Hf & Hrun).
  apply first_max_bool in Hstart.
  destruct Hstart as [[Htrue Hbefore]|[_ Hnone]].
  2:{ apply In_nth_error in Hin. destruct Hin as [j Hj].
      assert (Habs : Rgtb f1 1000 = false).
      { apply (Hnone j). apply nth_error_gt_scalar. now exists f1. }
      apply Rgtb_false in Habs. lra. }
  apply nth_error_gt_scalar in Htrue. destruct Htrue as (f0 & Hf0 & Hgt).
  symmetry in Hgt. apply Rgtb_true in Hgt.
  destruct Hrel as (m & Hm & Hmax & Hfirst).
  rewrite nth_error_skipn in Hm.
  exists start, f0, (rel + start)%nat, f, m.
  split; [exact Hrun|]. split; [exact Hf0|]. split; [exact Hgt|]. split.
  { intros j fj Hlt Hj. apply Rgtb_false. apply (Hbefore j); auto.
    apply nth_error_gt_scalar. now exists fj. }
  split; [lia|].
  split; [split; [exact Hf | now rewrite Nat.add_comm]|]. split.
  - intros j mj Hle Hj. apply Rgtb_false. apply (Hmax (j - start)%nat).
    rewrite nth_error_skipn.
    now replace (start + (j - start))%nat with j by lia.
  - intros j mj [Hle Hlt] Hj. apply Rgtb_true.
    apply (Hfirst (j - start)%nat); [lia|].
    rewrite nth_error_skipn.
    now replace (start + (j - start))%nat with j by lia.
Qed.

Lemma find_carrier_frequency_searches_from_start_witness :
  length [1500; 200; 3000] = length [4; 9; 6] /\
  (exists f, In f [1500; 200; 3000] /\ 1000 < f) /\
  exists s fs k f m,
    find_carrier_frequency [1500; 200; 3000] [4; 9; 6] = Ok f /\
    nth_error [1500; 200; 3000] s = Some fs /\ 1000 < fs /\
    (forall j fj, (j < s)%nat -> nth_error [1500; 200; 3000] j = Some fj ->
       fj <= 1000) /\
    (s <= k)%nat /\ bin [1500; 200; 3000] [4; 9; 6] k f m /\
    (forall j mj, (s <= j)%nat -> nth_error [4; 9; 6] j = Some mj ->
       mj <= m) /\
    (forall j mj, (s <= j < k)%nat -> nth_error [4; 9; 6] j = Some mj ->
       mj < m).
Proof.
  assert (He : exists f, In f [1500; 200; 3000] /\ 1000 < f).
  { exists 1500. split; [simpl; tauto | lra]. }
  split; [reflexivity|]. split; [exact He|].
  apply find_carrier_frequency_searches_from_start; [reflexivity | exact He].
Defined.

(** [argmax] does not change under a map that keeps the order. *)
Lemma argmax_map {T : Type} `{Dtype T} (g : T -> T) (a : list T) :
  (forall x y, gtb (g x) (g y) = gtb x y) ->
  np.argmax (map g a) = np.argmax a.
Proof.
  intros Hg. destruct a as [|x l]; [reflexivity|]. simpl. f_equal.
  generalize 0%nat as mi, 1%nat as i. revert x.
  induction l as [|y l IH]; intros x mi i; simpl; [reflexivity|].
  rewrite Hg. destruct (gtb y x); apply IH.
Qed.

(** X2: The magnitudes count only relative to each other: a common positive
    factor on all of them changes nothing in the outcome of the detection,
    errors included. *)
Theorem find_carrier_frequency_gain_invariant
  (frequencies magnitudes : list R) (c : R) :
  0 < c ->
  find_carrier_frequency frequencies (map (fun m => c * m) magnitudes) =
  find_carrier_frequency frequencies magnitudes.
Proof.
  intros Hc. unfold find_carrier_frequency.
  destruct (np.argmax (np.gt_scalar frequencies 1000)) as [start|e];
    [|reflexivity].
  simpl. rewrite skipn_map, argmax_map; [reflexivity|].
  intros x y. simpl.
  destruct (Rgtb x y) eqn:Hxy.
  - apply Rgtb_true in Hxy. apply Rgtb_true. nra.
  - apply Rgtb_false in Hxy. apply Rgtb_false. nra.
Qed.

Lemma find_carrier_frequency_gain_invariant_witness :
  0 < 2.5 /\
  find_carrier_frequency [0; 4000; 8000] (map (fun m => 2.5 * m) [3; 1; 2]) =
  find_carrier_frequency [0; 4000; 8000] [3; 1; 2].
Proof.
  split; [lra | apply find_carrier_frequency_gain_invariant; lra].
Defined.

(** X3: On a spectrum the magnitudes of the bins at or below 1000 Hz have no
    influence: two magnitude sequences that agree on the bins above
    1000 Hz give the same carrier. *)
Theorem find_carrier_frequency_ignores_low_bins
  (frequencies magnitudes magnitudes' : list R) :
  spectrum frequencies magnitudes ->
  length magnitudes' = length magnitudes ->
  (exists f, In f frequencies /\ 1000 < f) ->
  (forall i f, nth_error frequencies i = Some f -> 1000 < f ->
     nth_error magnitudes' i = nth_error magnitudes i) ->
  find_carrier_frequency frequencies magnitudes' =
  find_carrier_frequency frequencies magnitudes.
Proof.
  intros (Hlen & Hne & Hsorted) Hlen' (f1 & Hin & Hf1) Hagree.
  destruct (find_carrier_frequency_run frequencies magnitudes Hlen Hne)
    as (start & rel & f & Hargmax & Hstart & _).
  apply first_max_bool in Hstart.
  destruct Hstart as [[Htrue _]|[_ Hnone]].
  2:{ apply In_nth_error in Hin. destruct Hin as [j Hj].
      assert (Habs : Rgtb f1 1000 = false).
      { apply (Hnone j). apply nth_error_gt_scalar. now exists f1. }
      apply Rgtb_false in Habs. lra. }
  apply nth_error_gt_scalar in Htrue. destruct Htrue as (f0 & Hf0 & Hgt).
  symmetry in Hgt. apply Rgtb_true in Hgt.
  unfold find_carrier_frequency. rewrite Hargmax. simpl.
  replace (skipn start magnitudes') with (skipn start magnitudes);
    [reflexivity|].
  apply nth_error_ext. intros i. rewrite !nth_error_skipn.
  destruct (nth_error frequencies (start + i)) as [fi|] eqn:Hfi.
  - symmetry. apply (Hagree _ fi Hfi).
    assert (Hle : (start <= start + i)%nat) by lia.
    pose proof (strongly_sorted_nth _ _ _ _ _ Hsorted Hle Hf0 Hfi). lra.
  - apply nth_error_None in Hfi.
    assert (H1 : nth_error magnitudes (start + i) = None)
      by (apply nth_error_None; lia).
    assert (H2 : nth_error magnitudes' (start + i) = None)
      by (apply nth_error_None; lia).
    congruence.
Qed.

Lemma find_carrier_frequency_ignores_low_bins_witness :
  spectrum [0; 500; 2000; 4000] [1; 2; 3; 4] /\
  length [70; 80; 3; 4] = length [1; 2; 3; 4] /\
  (exists f, In f [0; 500; 2000; 4000] /\ 1000 < f) /\
  (forall i f, nth_error [0; 500; 2000; 4000] i = Some f -> 1000 < f ->
     nth_error [70; 80; 3; 4] i = nth_error [1; 2; 3; 4] i) /\
  find_carrier_frequency [0; 500; 2000; 4000] [70; 80; 3; 4] =
  find_carrier_frequency [0; 500; 2000; 4000] [1; 2; 3; 4].
Proof.
  assert (Hs : spectrum [0; 500; 2000; 4000] [1; 2; 3; 4]).
  { split; [reflexivity|]. split; [discriminate|]. repeat constructor; lra. }
  assert (He : exists f, In f [0; 500; 2000; 4000] /\ 1000 < f).
  { exists 2000. split; [simpl; tauto | lra]. }
  assert (Ha : forall i f, nth_error [0; 500; 2000; 4000] i = Some f ->
             1000 < f -> nth_error [70; 80; 3; 4] i = nth_error [1; 2; 3; 4] i).
  { intros [|[|[|[|i]]]] f Hf Hgt; simpl in *; try reflexivity;
      injection Hf as <-; lra. }
  split; [exact Hs|]. split; [reflexivity|]. split; [exact He|].
  split; [exact Ha|].
  exact (find_carrier_frequency_ignores_low_bins
           [0; 500; 2000; 4000] [1; 2; 3; 4] [70; 80; 3; 4] Hs eq_refl He Ha).
Defined.

(** ** Spectrum analysis: errors and shape of the result *)

(** The two ways a call of [analyze_spectrum] goes. *)
Lemma analyze_spectrum_cases (signal_data : list R) (sample_rate : Z) :
  (signal_data <> [] /\ sample_rate <> 0%Z) \/
  ((signal_data = [] \/ sample_rate = 0%Z) /\
   analyze_spectrum signal_data sample_rate = Raise ZeroDivisionError).
Proof.
  destruct (Z.eq_dec sample_rate 0) as [->|Hr].
  - right. split; [now right|]. unfold analyze_spectrum, py_div.
    destruct (Req_dec_T (IZR 0) 0) as [|H0]; [reflexivity | now elim H0].
  - destruct signal_data as [|x l]; [|left; split; [discriminate | exact Hr]].
    right. split; [now left|]. unfold analyze_spectrum, py_div.
    destruct (Req_dec_T (IZR sample_rate) 0) as [|_]; [reflexivity|].
    simpl. unfold fft.rfftfreq, py_div. simpl.
    destruct (Req_dec_T (0 * (1 / IZR sample_rate)) 0) as [|H0];
      [reflexivity|].
    elim H0. ring.
Qed.

(** X4: [analyze_spectrum] raises exactly when the signal is empty or the
    sample rate is zero, and then always [ZeroDivisionError]: the refusal
    of an empty array by [rfft] never shows, [rfftfreq] divides first. *)
Theorem analyze_spectrum_raises_iff (signal_data : list R) (sample_rate : Z) :
  (raises (analyze_spectrum signal_data sample_rate) <->
   signal_data = [] \/ sample_rate = 0%Z) /\
  (forall e, analyze_spectrum signal_data sample_rate = Raise e ->
     e = ZeroDivisionError).
Proof.
  destruct (analyze_spectrum_cases signal_data sample_rate)
    as [[Hne Hr]|[Hdeg Hraise]].
  - pose proof (analyze_spectrum_ok signal_data sample_rate Hne Hr) as Hok.
    cbv zeta in Hok. split.
    + split.
      * intros [e He]. rewrite Hok in He. discriminate.
      * intros [H|H]; contradiction.
    + intros e He. rewrite Hok in He. discriminate.
  - split.
    + split; [intros _; exact Hdeg | intros _; eexists; exact Hraise].
    + intros e He. rewrite Hraise in He. now injection He as <-.
Qed.

Lemma sorted_map_seq_bounded (f : nat -> R) (a n : nat) :
  (forall i j, (a <= i)%nat -> (i <= j)%nat -> (j < a + n)%nat ->
     f i <= f j) ->
  StronglySorted Rle (map f (seq a n)).
Proof.
  revert a. induction n as [|n IH]; intros a Hmono; simpl.
  - constructor.
  - constructor.
    + apply IH. intros i j Hi Hij Hj. apply Hmono; lia.
    + apply Forall_forall. intros y Hy. apply in_map_iff in Hy.
      destruct Hy as (j & <- & Hj). apply in_seq in Hj. apply Hmono; lia.
Qed.

(** X5: What [analyze_spectrum] returns for a signal of [1 <= N <= 2^53]
    samples and a rate [0 < R <= 2^32] is, with the rounding of its
    frequencies, a spectrum of the data model, so that the detector's
    assumptions hold on it: sequences of one length, frequencies in
    increasing order from 0 Hz up, in steps that differ from [R / N] by
    at most [2^-50 * R], magnitudes that are not negative. *)
Theorem analyze_spectrum_gives_spectrum (rnd : R -> R)
  (signal_data : list R) (sample_rate : Z) :
  rounding rnd ->
  (1 <= length signal_data)%nat ->
  (Z.of_nat (length signal_data) <= 2 ^ 53)%Z ->
  (0 < sample_rate <= 2 ^ 32)%Z ->
  exists frequencies magnitudes,
    analyze_spectrum_fl rnd signal_data sample_rate =
      Ok (frequencies, magnitudes) /\
    spectrum frequencies magnitudes /\
    nth_error frequencies 0 = Some 0 /\
    (forall k a b, nth_error frequencies k = Some a ->
       nth_error frequencies (S k) = Some b ->
       Rabs (b - a - IZR sample_rate / INR (length signal_data)) <=
         8 * u * IZR sample_rate) /\
    Forall (fun m => 0 <= m) magnitudes.
Proof.
  intros Hrnd HN Hb Hrate.
  pose proof (analyze_spectrum_fl_ok rnd Hrnd signal_data sample_rate
                HN Hb Hrate) as Hrun.
  cbv zeta in Hrun. set (n := length signal_data) in *.
  set (val := rnd (1 / rnd (INR n * rnd (1 / IZR sample_rate)))) in *.
  do 2 eexists. split; [exact Hrun|]. split; [|split; [|split]].
  - split; [|split].
    + unfold npf.arange. now rewrite !length_map.
    + unfold npf.arange. rewrite Nat.add_1_r. discriminate.
    + unfold npf.arange. rewrite map_map. apply sorted_map_seq_bounded.
      intros i j _ Hij Hj.
      apply (frequencies_fl_sorted rnd Hrnd n sample_rate HN Hb Hrate);
        lia.
  - unfold npf.arange. rewrite Nat.add_1_r. cbn [seq map nth_error]. f_equal.
    simpl INR. rewrite Rmult_0_l. apply (rnd_0 rnd Hrnd).
  - intros k a b Ha Hb'.
    assert (Hk : (S k < n / 2 + 1)%nat).
    { assert (Hs : nth_error (map (fun k0 => rnd (k0 * val))
                                (npf.arange (n / 2 + 1))) (S k) <> None)
        by congruence.
      apply nth_error_Some in Hs. unfold npf.arange in Hs.
      now rewrite !length_map, length_seq in Hs. }
    rewrite nth_error_map, nth_error_arange in Ha by lia.
    rewrite nth_error_map, nth_error_arange in Hb' by lia.
    cbn [option_map] in Ha, Hb'.
    assert (Ha' : a = rnd (INR k * val)) by congruence.
    assert (Hb'' : b = rnd (INR (S k) * val)) by congruence.
    destruct (bin_fl rnd Hrnd n k sample_rate HN Hb Hrate ltac:(lia))
      as (HK1 & _ & H1).
    destruct (bin_fl rnd Hrnd n (S k) sample_rate HN Hb Hrate ltac:(lia))
      as (HK2 & _ & H2).
    cbv zeta in HK1, HK2, H1, H2. fold val in H1, H2.
    rewrite <- Ha' in H1. rewrite <- Hb'' in H2.
    assert (Hstep : INR (S k) * IZR sample_rate / INR n =
                    INR k * IZR sample_rate / INR n + IZR sample_rate / INR n).
    { rewrite S_INR. field. apply not_0_INR. lia. }
    rewrite Hstep in H2, HK2.
    set (K := INR k * IZR sample_rate / INR n) in *.
    set (T := IZR sample_rate / INR n) in *.
    apply Rabs_le_between in H1, H2.
    assert (Hu : 0 < u) by (unfold u; lra).
    apply Rabs_le. nra.
  - apply Forall_map, Forall_forall. intros z _. apply sqrt_pos.
Qed.

Lemma analyze_spectrum_gives_spectrum_witness :
  rounding (fun x => x) /\
  (1 <= length [0.5; -0.5; 0.25]%R)%nat /\
  (Z.of_nat (length [0.5; -0.5; 0.25]%R) <= 2 ^ 53)%Z /\
  (0 < 8000 <= 2 ^ 32)%Z /\
  exists frequencies magnitudes,
    analyze_spectrum_fl (fun x => x) [0.5; -0.5; 0.25] 8000 =
      Ok (frequencies, magnitudes) /\
    spectrum frequencies magnitudes /\
    nth_error frequencies 0 = Some 0 /\
    (forall k a b, nth_error frequencies k = Some a ->
       nth_error frequencies (S k) = Some b ->
       Rabs (b - a - IZR 8000 / INR (length [0.5; -0.5; 0.25]%R)) <=
         8 * u * IZR 8000) /\
    Forall (fun m => 0 <= m) magnitudes.
Proof.
  split; [exact rounding_id|]. split; [simpl; lia|].
  split; [simpl; lia|]. split; [lia|].
  apply analyze_spectrum_gives_spectrum;
    [exact rounding_id | simpl; lia | simpl; lia | lia].
Defined.

(** ** Spectrum analysis: the magnitudes *)














(** ** Demodulation: edge cases and symmetries *)

(** The carrier that [demodulate_am] regenerates, sample by sample. *)
Lemma demodulate_am_carrier (signal_data : list R) (sample_rate : Z)
  (carrier_freq : R) :
  sample_rate <> 0%Z ->
  demodulate_am signal_data sample_rate carrier_freq =
    Finite (map (fun p => fst p * snd p)
              (combine signal_data
                 (map (fun i => cos (2 * PI * carrier_freq *
                                       (INR i / IZR sample_rate)))
                    (seq 0 (length signal_data))))).
Proof.
  intros Hrate. unfold demodulate_am, npf.div_scalar, npf.arange.
  destruct (Req_dec_T (IZR sample_rate) 0) as [H0|_].
  { apply eq_IZR_R0 in H0. contradiction. }
  simpl. now rewrite !map_map.
Qed.

(** X9: The output has one sample per input sample whatever the sample rate
    and the carrier are, and nothing is raised; with a sample rate of zero
    none of its samples is a finite number. *)
Theorem demodulate_am_length (signal_data : list R) (sample_rate : Z)
  (carrier_freq : R) :
  floats_len (demodulate_am signal_data sample_rate carrier_freq) =
    length signal_data /\
  (sample_rate = 0%Z ->
   demodulate_am signal_data sample_rate carrier_freq =
     NotFinite (length signal_data)).
Proof.
  destruct (Z.eq_dec sample_rate 0) as [->|Hr].
  - unfold demodulate_am, npf.div_scalar.
    destruct (Req_dec_T (IZR 0) 0) as [_|H0]; [|now elim H0].
    simpl. unfold npf.arange. rewrite ?length_map, ?length_seq.
    split; [reflexivity | reflexivity].
  - destruct (demodulate_am_finite signal_data sample_rate carrier_freq Hr)
      as (out & Hout & Hlen & _).
    rewrite Hout. simpl. split; [exact Hlen | intros; contradiction].
Qed.

Lemma combine_ones (a : list R) (l : list nat) :
  length l = length a ->
  map (fun p => fst p * snd p) (combine a (map (fun _ => 1) l)) = a.
Proof.
  revert l. induction a as [|x a IH]; intros [|i l] Hlen; simpl in *;
    try discriminate; [reflexivity|].
  rewrite IH by lia. f_equal. ring.
Qed.

(** X10: A carrier of 0 Hz, which the detector returns when bin 0 is the peak
    of a spectrum without a bin above 1000 Hz, leaves the signal as it is. *)
Theorem demodulate_am_zero_carrier (signal_data : list R) (sample_rate : Z) :
  sample_rate <> 0%Z ->
  demodulate_am signal_data sample_rate 0 = Finite signal_data.
Proof.
  intros Hrate. rewrite demodulate_am_carrier by exact Hrate. f_equal.
  rewrite (map_ext (fun i => cos (2 * PI * 0 * (INR i / IZR sample_rate)))
             (fun _ => 1)).
  - apply combine_ones. apply length_seq.
  - intros i. rewrite <- cos_0. f_equal. unfold Rdiv. ring.
Qed.

Lemma demodulate_am_zero_carrier_witness :
  8000%Z <> 0%Z /\
  demodulate_am [0.5; -1; 0.25] 8000 0 = Finite [0.5; -1; 0.25].
Proof.
  split; [lia | apply demodulate_am_zero_carrier; lia].
Defined.



(** ** Loader: channels and unsigned data *)

Lemma mean_repeat (x : R) (c : nat) :
  (1 <= c)%nat -> npf.mean (repeat x c) = x.
Proof.
  intros Hc. unfold npf.mean. rewrite repeat_length.
  assert (Hsum : fold_right Rplus 0 (repeat x c) = INR c * x).
  { clear Hc. induction c as [|c IH]; [simpl; ring|].
    rewrite S_INR. simpl repeat. simpl fold_right. rewrite IH. ring. }
  rewrite Hsum. field. apply not_0_INR. lia.
Qed.

(** X13: A stereo file of integer data whose two channels carry the same
    codes loads as the mono file of these codes does. *)
Theorem load_audio_equal_channels (sample_rate : Z) (d : int_dtype)
  (codes : list Z) :
  load_audio (sample_rate,
              IntData d (Arr2 (map (fun v => [v; v]) codes))) =
    load_audio (sample_rate, IntData d (Arr1 codes)).
Proof.
  unfold load_audio, rescale. f_equal.
  destruct (int_kind d); simpl; rewrite !map_map; apply map_ext;
    intros v; cbn [map]; apply (mean_repeat _ 2); lia.
Qed.

(** X14: Unsigned 8-bit PCM is not rescaled and not centred: every sample
    loaded from it lies between 0 and 255, and a mono file gives its codes
    as they are. *)
Theorem load_audio_uint8_range (sample_rate : Z) (a : ndarray Z)
  (codes : list Z) :
  wf_wav (IntData uint8 a) ->
  (forall x, In x (snd (load_audio (sample_rate, IntData uint8 a))) ->
     0 <= x <= 255) /\
  load_audio (sample_rate, IntData uint8 (Arr1 codes)) =
    (sample_rate, map IZR codes).
Proof.
  intros [Hcodes Hshape]. split; [|reflexivity].
  intros x Hin. simpl in Hin.
  apply (to_mono_bounds (ndarray_map IZR a)); auto.
  - now apply wf_shape_map.
  - apply (ndarray_all_map IZR (in_dtype uint8)); [|exact Hcodes].
    intros v [Hlo Hhi]. simpl in Hlo, Hhi.
    apply IZR_le in Hlo, Hhi. lra.
Qed.

Lemma load_audio_uint8_range_witness :
  wf_wav (IntData uint8 (Arr2 [[0; 255]; [128; 127]]%Z)) /\
  (forall x,
     In x (snd (load_audio
                  (8000%Z, IntData uint8 (Arr2 [[0; 255]; [128; 127]]%Z)))) ->
     0 <= x <= 255) /\
  load_audio (8000%Z, IntData uint8 (Arr1 [0; 128; 255]%Z)) =
    (8000%Z, map IZR [0; 128; 255]%Z).
Proof.
  assert (Hwf : wf_wav (IntData uint8 (Arr2 [[0; 255]; [128; 127]]%Z))).
  { split; simpl; repeat constructor; unfold in_dtype; simpl; lia. }
  split; [exact Hwf|].
  apply load_audio_uint8_range. exact Hwf.
Defined.

(** ** Saving: the codes written *)

Lemma is_peak_unique (signal_data : list R) (p q : R) :
  is_peak signal_data p -> is_peak signal_data q -> p = q.
Proof.
  intros [Hp (x & Hx & Hxp)] [Hq (y & Hy & Hyq)].
  pose proof (Hp y Hy). pose proof (Hq x Hx). lra.
Qed.

Lemma save_audio_codes_range (signal_data : list R) (sample_rate : Z) :
  (exists x, In x signal_data /\ x <> 0) ->
  exists codes,
    save_audio signal_data sample_rate = Ok (sample_rate, Codes codes) /\
    length codes = length signal_data /\
    Forall (fun c => (- 32767 <= c <= 32767)%Z) codes /\
    exists c, In c codes /\ Z.abs c = 32767%Z.
Proof.
  intros Hnz.
  destruct (save_audio_codes signal_data sample_rate Hnz)
    as (peak & Hpeak & Hpos & Hsave).
  eexists. split; [exact Hsave|]. split; [apply length_map|]. split.
  - apply Forall_map, Forall_forall. intros x Hin.
    pose proof (normalized_sample_range signal_data peak x Hpeak Hpos Hin) as Hr.
    now destruct (Rtrunc_near _ Hr).
  - destruct Hpeak as [_ (x & Hx & Habs)].
    exists (Rtrunc (x / peak * 32767)). split.
    { apply in_map_iff. now exists x. }
    destruct (Rcase_abs x) as [Hneg|Hnn].
    + rewrite (Rabs_left x Hneg) in Habs.
      replace (x / peak * 32767) with (IZR (- 32767)) by (rewrite <- Habs; field; lra).
      now rewrite Rtrunc_IZR.
    + rewrite (Rabs_right x Hnn) in Habs.
      replace (x / peak * 32767) with (IZR 32767) by (rewrite <- Habs; field; lra).
      now rewrite Rtrunc_IZR.
Qed.



Lemma fold_left_Rmax_scale (c : R) (l : list R) (x : R) :
  0 <= c ->
  fold_left Rmax (map (fun y => c * y) l) (c * x) = c * fold_left Rmax l x.
Proof.
  intros Hc. revert x. induction l as [|y l IH]; intros x; simpl;
    [reflexivity|].
  rewrite RmaxRmult by exact Hc. apply IH.
Qed.

(** X16: The gain of the input does not reach the file: a positive factor on
    every sample gives the same outcome, the same codes or the same
    error. *)
Theorem save_audio_gain_invariant (signal_data : list R) (sample_rate : Z)
  (c : R) :
  0 < c ->
  save_audio (map (fun x => c * x) signal_data) sample_rate =
  save_audio signal_data sample_rate.
Proof.
  intros Hc. unfold save_audio.
  destruct signal_data as [|x l]; [reflexivity|].
  cbn [map npf.max bind].
  assert (Habs : forall y, Rabs (c * y) = c * Rabs y).
  { intros y. rewrite Rabs_mult, (Rabs_pos_eq c) by lra. reflexivity. }
  rewrite map_map, (map_ext (fun y => Rabs (c * y)) (fun y => c * Rabs y))
    by exact Habs.
  rewrite Habs, <- (map_map Rabs (fun y => c * y)), fold_left_Rmax_scale by lra.
  set (peak := fold_left Rmax (map Rabs l) (Rabs x)).
  unfold npf.div_scalar.
  destruct (Req_dec_T peak 0) as [H0|Hne];
    destruct (Req_dec_T (c * peak) 0) as [H0'|Hne']; try nra.
  - simpl. now rewrite !length_map.
  - change (c * x :: map (fun y => c * y) l)
      with (map (fun y => c * y) (x :: l)).
    cbn [floats_map astype_int16]. do 3 f_equal.
    rewrite !map_map. apply map_ext. intros y. f_equal. field. split; lra.
Qed.

Lemma save_audio_gain_invariant_witness :
  0 < 3 /\
  save_audio (map (fun x => 3 * x) [0.1; -0.2]) 8000 =
  save_audio [0.1; -0.2] 8000.
Proof.
  split; [lra | apply save_audio_gain_invariant; lra].
Defined.

Lemma Rtrunc_opp (y : R) : Rtrunc (- y) = (- Rtrunc y)%Z.
Proof.
  unfold Rtrunc.
  destruct (Rle_dec 0 y) as [Hy|Hy]; destruct (Rle_dec 0 (- y)) as [Hy'|Hy'].
  - assert (y = 0) by lra. subst y. rewrite Ropp_0.
    change 0 with (IZR 0). rewrite ZfloorZ. reflexivity.
  - unfold Zceil. rewrite Ropp_involutive. lia.
  - unfold Zceil. lia.
  - lra.
Qed.

(** X17: The quantiser is symmetric: inverting the polarity of the signal
    inverts every code, and changes no other part of the outcome. *)
Theorem save_audio_polarity (signal_data : list R) (sample_rate : Z) :
  save_audio (map Ropp signal_data) sample_rate =
  (saved <- save_audio signal_data sample_rate ;;
   Ok (fst saved,
       match snd saved with
       | Codes codes => Codes (map Z.opp codes)
       | Unspecified n => Unspecified n
       end)).
Proof.
  unfold save_audio. rewrite map_map.
  rewrite (map_ext (fun x => Rabs (- x)) Rabs) by (intros; apply Rabs_Ropp).
  destruct (npf.max (map Rabs signal_data)) as [peak|e]; [|reflexivity].
  simpl. unfold npf.div_scalar. rewrite length_map.
  destruct (Req_dec_T peak 0) as [H0|Hne]; [reflexivity|].
  simpl. do 3 f_equal. rewrite !map_map. apply map_ext. intros x.
  rewrite <- Rtrunc_opp. f_equal. field. exact Hne.
Qed.

Lemma all_zero_or_not (a : list R) :
  Forall (fun x => x = 0) a \/ exists x, In x a /\ x <> 0.
Proof.
  induction a as [|x a [IH|(y & Hy & Hne)]].
  - left. constructor.
  - destruct (Req_dec x 0) as [->|Hx].
    + left. now constructor.
    + right. exists x. split; [now left | exact Hx].
  - right. exists y. split; [now right | exact Hne].
Qed.

(** [save_audio] writes codes only for a signal with a sample that is not
    zero. *)
Lemma save_audio_Codes_inv (signal_data : list R) (sample_rate r : Z)
  (codes : list Z) :
  save_audio signal_data sample_rate = Ok (r, Codes codes) ->
  exists x, In x signal_data /\ x <> 0.
Proof.
  intros Hsave. destruct (all_zero_or_not signal_data) as [Hz|Hnz]; [|exact Hnz].
  destruct signal_data as [|x l]; [discriminate|].
  rewrite save_audio_silent in Hsave by (discriminate || exact Hz).
  discriminate.
Qed.

(** X18: The round trip is stable: a signal that was saved and loaded again is
    saved to the codes it was loaded from. *)
Theorem save_audio_reload_stable (signal_data : list R) (sample_rate : Z)
  (out : list R) :
  reloads signal_data sample_rate out ->
  save_audio out sample_rate = save_audio signal_data sample_rate.
Proof.
  intros ([r saved] & file & Hsave & Hfile & Hload).
  unfold written_file in Hfile. simpl in Hfile.
  destruct saved as [codes|n]; [|discriminate]. injection Hfile as <-.
  simpl in Hload. injection Hload as -> <-.
  pose proof (save_audio_Codes_inv _ _ _ _ Hsave) as Hnz.
  destruct (save_audio_codes_range signal_data sample_rate Hnz)
    as (codes' & Hsave' & _ & Hrange & c & Hc & Hfull).
  assert (codes' = codes) by congruence. subst codes'.
  rewrite Hsave. clear Hsave Hsave' Hnz signal_data.
  set (out := map (fun v => IZR v / 32767) codes).
  assert (Hpeak1 : is_peak out 1).
  { split.
    - intros y Hy. apply in_map_iff in Hy. destruct Hy as (v & <- & Hv).
      rewrite Forall_forall in Hrange. destruct (Hrange v Hv) as [Hlo Hhi].
      apply IZR_le in Hlo, Hhi. apply Rabs_le. lra.
    - exists (IZR c / 32767). split; [apply in_map_iff; now exists c|].
      unfold Rdiv. rewrite Rabs_mult, (Rabs_pos_eq (/ 32767)) by lra.
      rewrite <- abs_IZR, Hfull. lra. }
  assert (Hnz : exists x, In x out /\ x <> 0).
  { destruct Hpeak1 as [_ (y & Hy & Habs)]. exists y. split; [exact Hy|].
    intros ->. rewrite Rabs_R0 in Habs. lra. }
  destruct (save_audio_codes out sample_rate Hnz)
    as (peak & Hpeak & _ & Hsave).
  rewrite (is_peak_unique out peak 1 Hpeak Hpeak1) in Hsave.
  rewrite Hsave. do 3 f_equal. subst out. rewrite map_map.
  rewrite <- (map_id codes) at 2. apply map_ext. intros v.
  replace (IZR v / 32767 / 1 * 32767) with (IZR v) by field.
  apply Rtrunc_IZR.
Qed.

Lemma reloads_quarter_scale : reloads [0.25; -0.125] 8000 [1; -16383 / 32767].
Proof.
  exists (8000%Z, Codes [32767; -16383]%Z).
  exists (8000%Z, IntData int16 (Arr1 [32767; -16383]%Z)).
  split; [|split].
  - unfold save_audio. simpl. unfold npf.div_scalar.
    assert (Hmax : Rmax (Rabs 0.25) (Rabs (-0.125)) = 0.25).
    { rewrite (Rabs_pos_eq 0.25), (Rabs_left (-0.125)) by lra.
      apply Rmax_left. lra. }
    rewrite Hmax.
    destruct (Req_dec_T 0.25 0) as [H0|_]; [lra|].
    simpl.
    replace (0.25 / 0.25 * 32767) with (IZR 32767) by lra.
    rewrite Rtrunc_IZR.
    assert (Hneg : Rtrunc (-0.125 / 0.25 * 32767) = (-16383)%Z).
    { unfold Rtrunc.
      destruct (Rle_dec 0 (-0.125 / 0.25 * 32767)) as [Hle|_]; [lra|].
      apply Zceil_eq. lra. }
    now rewrite Hneg.
  - reflexivity.
  - simpl. do 2 f_equal. field.
Qed.

Lemma save_audio_reload_stable_witness :
  reloads [0.25; -0.125] 8000 [1; -16383 / 32767] /\
  save_audio [1; -16383 / 32767] 8000 = save_audio [0.25; -0.125] 8000.
Proof.
  split; [exact reloads_quarter_scale|].
  exact (save_audio_reload_stable [0.25; -0.125] 8000 [1; -16383 / 32767]
           reloads_quarter_scale).
Defined.

(** ** Comparison of two signals *)

Lemma floats_firstn_len (n : nat) (a : floats) :
  floats_len (floats_firstn n a) = Nat.min n (floats_len a).
Proof.
  destruct a as [l|m]; simpl; [apply length_firstn | reflexivity].
Qed.

(** The plots of [compare_signals] come first, then the two analyses. *)
Lemma compare_signals_eval (original filtered : list R) (sample_rate : Z) :
  compare_signals original filtered sample_rate =
    if Nat.eqb (Nat.min 1000 (length original))
         (Nat.min 1000 (length filtered))
    then (_ <- analyze_spectrum original sample_rate ;;
          _ <- analyze_spectrum filtered sample_rate ;;
          Ok tt)
    else Raise ValueError.
Proof.
  unfold compare_signals, plt_plot.
  rewrite floats_firstn_len, !length_firstn.
  assert (Hlen : floats_len (npf.div_scalar (npf.arange (length original))
                               (IZR sample_rate)) = length original).
  { unfold npf.div_scalar, npf.arange.
    destruct (Req_dec_T (IZR sample_rate) 0); simpl;
      now rewrite ?length_map, length_seq. }
  rewrite Hlen, Nat.eqb_refl. cbn [bind].
  now destruct (Nat.eqb (Nat.min 1000 (length original))
                  (Nat.min 1000 (length filtered))).
Qed.

(** X21: [compare_signals] ends well exactly when both signals have samples,
    the rate is not zero and the first 1000 samples of the two are equally
    many.  A difference in these numbers is a [ValueError] of the second
    plot; any other failure is a [ZeroDivisionError] of the analysis. *)
Theorem compare_signals_outcome (original filtered : list R)
  (sample_rate : Z) :
  (compare_signals original filtered sample_rate = Ok tt <->
   original <> [] /\ filtered <> [] /\ sample_rate <> 0%Z /\
   Nat.min 1000 (length original) = Nat.min 1000 (length filtered)) /\
  (compare_signals original filtered sample_rate = Raise ValueError <->
   Nat.min 1000 (length original) <> Nat.min 1000 (length filtered)) /\
  (forall e, compare_signals original filtered sample_rate = Raise e ->
     e = ValueError \/ e = ZeroDivisionError).
Proof.
  rewrite compare_signals_eval.
  destruct (Nat.eqb_spec (Nat.min 1000 (length original))
              (Nat.min 1000 (length filtered))) as [Heq|Hneq].
  2:{ split; [|split].
      - split; [discriminate | tauto].
      - tauto.
      - intros e [= <-]. now left. }
  assert (Hzde : (original = [] \/ filtered = [] \/ sample_rate = 0%Z) ->
            forall r : result unit, r = Raise ZeroDivisionError ->
            (r = Ok tt <->
             original <> [] /\ filtered <> [] /\ sample_rate <> 0%Z /\
             Nat.min 1000 (length original) = Nat.min 1000 (length filtered)) /\
            (r = Raise ValueError <->
             Nat.min 1000 (length original) <> Nat.min 1000 (length filtered)) /\
            (forall e, r = Raise e -> e = ValueError \/ e = ZeroDivisionError)).
  { intros Hdeg r ->. split; [|split].
    - split; [discriminate | tauto].
    - split; [discriminate | tauto].
    - intros e [= <-]. now right. }
  destruct (analyze_spectrum_cases original sample_rate)
    as [[Ho Hr]|[Ho Hraise]].
  - rewrite (analyze_spectrum_ok original sample_rate Ho Hr). cbn [bind].
    destruct (analyze_spectrum_cases filtered sample_rate)
      as [[Hf _]|[Hf Hraise]].
    + rewrite (analyze_spectrum_ok filtered sample_rate Hf Hr). cbn [bind].
      split; [|split].
      * tauto.
      * split; [discriminate | tauto].
      * discriminate.
    + rewrite Hraise. cbn [bind]. apply Hzde; [tauto | reflexivity].
  - rewrite Hraise. cbn [bind]. apply Hzde; [tauto | reflexivity].
Qed.

(** ** Orchestration *)

Lemma run_pbind {A B : Type} (lib : scipy) (p : prog A) (k : A -> prog B) :
  run lib (pbind p k) = (x <- run lib p ;; run lib (k x)).
Proof.
  induction p as [[a|e]|order low high c IH|b a x c IH]; simpl.
  - reflexivity.
  - reflexivity.
  - destruct (butter lib order low high) as [ba|e]; simpl; [apply IH|].
    reflexivity.
  - destruct (filtfilt lib b a x) as [y|e]; simpl; [apply IH|]. reflexivity.
Qed.

Lemma load_audio_rate (file : Z * wav_data) :
  fst (load_audio file) = fst file.
Proof. now destruct file. Qed.

(** How [main] runs on a file with a frame and a sample rate other than
    zero: analysis, detection and demodulation raise nothing, and the run
    reaches the design call. *)
Lemma main_reaches_filter (file : Z * wav_data) (sample_rate : Z)
  (audio_data : list R) :
  load_audio file = (sample_rate, audio_data) ->
  audio_data <> [] -> sample_rate <> 0%Z ->
  exists frequencies magnitudes carrier_freq demodulated_signal,
    analyze_spectrum audio_data sample_rate = Ok (frequencies, magnitudes) /\
    find_carrier_frequency frequencies magnitudes = Ok carrier_freq /\
    demodulate_am audio_data sample_rate carrier_freq =
      Finite demodulated_signal /\
    length demodulated_signal = length audio_data /\
    main file =
      Butter 5 (20 / (0.5 * IZR sample_rate)) (6000 / (0.5 * IZR sample_rate))
        (fun ba =>
           Filtfilt (fst ba) (snd ba) demodulated_signal
             (fun filtered_signal =>
                pbind (Done (compare_signals demodulated_signal
                               filtered_signal sample_rate))
                  (fun _ => Done (save_audio filtered_signal sample_rate)))).
Proof.
  intros Hload Hne Hr.
  pose proof (analyze_spectrum_ok audio_data sample_rate Hne Hr) as Hrun.
  cbv zeta in Hrun.
  match type of Hrun with _ = Ok (?a, ?b) =>
    set (fs := a) in *; set (ms := b) in * end.
  assert (Hlen : length fs = length ms).
  { subst fs ms. unfold npf.arange. now rewrite !length_map. }
  assert (Hfs : fs <> []).
  { intros Hnil. apply (f_equal (@length R)) in Hnil. subst fs.
    unfold npf.arange in Hnil.
    rewrite !length_map, length_seq in Hnil. simpl in Hnil. lia. }
  destruct (find_carrier_frequency_run fs ms Hlen Hfs)
    as (start & rel & f & _ & _ & _ & _ & Hcar).
  destruct (demodulate_am_finite audio_data sample_rate f Hr)
    as (demod & Hdemod & Hdlen & _).
  assert (Hdne : demod <> []).
  { intros ->. destruct audio_data; [congruence | discriminate]. }
  exists fs, ms, f, demod. repeat split; auto.
  unfold main. rewrite Hload, Hrun. cbn [pbind]. rewrite Hcar. cbn [pbind].
  rewrite Hdemod.
  rewrite (analyze_spectrum_ok demod sample_rate Hdne Hr). cbn [pbind].
  rewrite apply_bandpass_filter_calls_butter by exact Hr. reflexivity.
Qed.

(** The branch of [main] for a demodulated array that is not finite
    stands for what the next call does: such an array comes from a sample
    rate of zero only, on which [analyze_spectrum] raises whatever its
    signal is.  On the path to that branch [analyze_spectrum] has already
    succeeded, so the branch is never taken. *)
Lemma demodulate_am_not_finite (signal_data : list R) (sample_rate : Z)
  (carrier_freq : R) (n : nat) :
  demodulate_am signal_data sample_rate carrier_freq = NotFinite n ->
  forall x, analyze_spectrum x sample_rate = Raise ZeroDivisionError.
Proof.
  intros Hnf x.
  destruct (analyze_spectrum_cases x sample_rate) as [[_ Hr]|[_ Hraise]];
    [|exact Hraise].
  destruct (demodulate_am_finite signal_data sample_rate carrier_freq Hr)
    as (out & Hout & _). congruence.
Qed.

(** X22: [main] ends before any library call exactly when the file has no
    frame or a sample rate of zero, and then with [ZeroDivisionError];
    on every other file carrier detection and demodulation succeed and the
    first library call is the design of the order 5 filter with the
    cut-offs 20 Hz and 6000 Hz over the Nyquist frequency. *)
Theorem main_before_filter (file : Z * wav_data) :
  (main file = Done (Raise ZeroDivisionError) <->
   snd (load_audio file) = [] \/ fst file = 0%Z) /\
  ((exists k,
      main file = Butter 5 (20 / (0.5 * IZR (fst file)))
                    (6000 / (0.5 * IZR (fst file))) k) <->
   snd (load_audio file) <> [] /\ fst file <> 0%Z).
Proof.
  destruct (load_audio file) as [sample_rate audio_data] eqn:Hload.
  assert (Hrate : fst file = sample_rate).
  { rewrite <- load_audio_rate, Hload. reflexivity. }
  rewrite Hrate. simpl snd.
  destruct (analyze_spectrum_cases audio_data sample_rate)
    as [[Hne Hr]|[Hdeg Hraise]].
  - destruct (main_reaches_filter file sample_rate audio_data Hload Hne Hr)
      as (fs & ms & f & demod & _ & _ & _ & _ & Hmain).
    rewrite Hmain. split.
    + split; [discriminate | tauto].
    + split; [tauto | intros _; eexists; reflexivity].
  - assert (Hmain : main file = Done (Raise ZeroDivisionError)).
    { unfold main. rewrite Hload, Hraise. reflexivity. }
    rewrite Hmain. split.
    + tauto.
    + split; [intros [k Hk]; discriminate | tauto].
Qed.


(** The run of [main] with a library, on a file with a frame and a rate
    other than zero. *)
Lemma run_main (lib : scipy) (file : Z * wav_data) (sample_rate : Z)
  (audio_data : list R) :
  load_audio file = (sample_rate, audio_data) ->
  audio_data <> [] -> sample_rate <> 0%Z ->
  exists carrier_freq demodulated_signal,
    demodulate_am audio_data sample_rate carrier_freq =
      Finite demodulated_signal /\
    length demodulated_signal = length audio_data /\
    run lib (main file) =
      (ba <- butter lib 5 (20 / (0.5 * IZR sample_rate))
               (6000 / (0.5 * IZR sample_rate)) ;;
       filtered_signal <- filtfilt lib (fst ba) (snd ba) demodulated_signal ;;
       _ <- compare_signals demodulated_signal filtered_signal sample_rate ;;
       save_audio filtered_signal sample_rate).
Proof.
  intros Hload Hne Hr.
  destruct (main_reaches_filter file sample_rate audio_data Hload Hne Hr)
    as (fs & ms & f & demod & _ & _ & Hdemod & Hlen & Hmain).
  exists f, demod. split; [exact Hdemod|]. split; [exact Hlen|].
  rewrite Hmain. cbn [run].
  destruct (butter lib 5 _ _) as [ba|e]; [|reflexivity]. cbn [bind].
  destruct (filtfilt lib (fst ba) (snd ba) demod) as [y|e]; [|reflexivity].
  cbn [bind]. rewrite run_pbind. reflexivity.
Qed.


Lemma combine_zeros (g : nat -> R) (a : list R) (l : list nat) :
  Forall (fun x => x = 0) a -> length l = length a ->
  map (fun p => fst p * snd p) (combine a (map g l)) = a.
Proof.
  intros Hz. revert l.
  induction Hz as [|x a Hx _ IH]; intros [|i l] Hlen; simpl in *;
    try discriminate; [reflexivity|].
  subst x. rewrite IH by lia. f_equal. ring.
Qed.

Lemma demodulate_am_silent (signal_data : list R) (sample_rate : Z)
  (carrier_freq : R) :
  Forall (fun x => x = 0) signal_data -> sample_rate <> 0%Z ->
  demodulate_am signal_data sample_rate carrier_freq = Finite signal_data.
Proof.
  intros Hz Hr. rewrite demodulate_am_carrier by exact Hr. f_equal.
  apply combine_zeros; [exact Hz | apply length_seq].
Qed.

(** After the filter, on silence: the comparison succeeds and the file is
    written from samples that are not finite. *)
Lemma silent_tail (audio_data filtered_signal : list R) (sample_rate : Z) :
  audio_data <> [] -> sample_rate <> 0%Z ->
  Forall (fun x => x = 0) filtered_signal ->
  length filtered_signal = length audio_data ->
  (_ <- compare_signals audio_data filtered_signal sample_rate ;;
   save_audio filtered_signal sample_rate) =
    Ok (sample_rate, Unspecified (length filtered_signal)).
Proof.
  intros Hne Hr Hfz Hlen.
  assert (Hfne : filtered_signal <> []).
  { intros ->. destruct audio_data; [congruence | discriminate]. }
  rewrite compare_signals_eval, <- Hlen, Nat.eqb_refl.
  rewrite (analyze_spectrum_ok audio_data sample_rate Hne Hr).
  rewrite (analyze_spectrum_ok filtered_signal sample_rate Hfne Hr).
  cbn [bind]. now apply save_audio_silent.
Qed.

(** X24: A silent file is not refused.  If the design succeeds and the
    filtering routine answers the silent signal with a silent signal of
    the same length, [main] writes a file at the rate of the input whose
    codes are casts of values that are not finite. *)
Theorem main_silent_file (lib : scipy) (file : Z * wav_data)
  (ba : list R * list R) (filtered_signal : list R) :
  snd (load_audio file) <> [] ->
  Forall (fun x => x = 0) (snd (load_audio file)) ->
  fst file <> 0%Z ->
  butter lib 5 (20 / (0.5 * IZR (fst file)))
    (6000 / (0.5 * IZR (fst file))) = Ok ba ->
  filtfilt lib (fst ba) (snd ba) (snd (load_audio file)) =
    Ok filtered_signal ->
  Forall (fun x => x = 0) filtered_signal ->
  length filtered_signal = length (snd (load_audio file)) ->
  run lib (main file) = Ok (fst file, Unspecified (length filtered_signal)).
Proof.
  destruct (load_audio file) as [sample_rate audio_data] eqn:Hload.
  assert (Hrate : fst file = sample_rate).
  { rewrite <- load_audio_rate, Hload. reflexivity. }
  rewrite Hrate. cbn [snd]. intros Hne Hz Hr Hb Hf Hfz Hlen.
  destruct (run_main lib file sample_rate audio_data Hload Hne Hr)
    as (f & demod & Hdemod & _ & Heq).
  rewrite (demodulate_am_silent audio_data sample_rate f Hz Hr) in Hdemod.
  injection Hdemod as <-.
  rewrite Heq, Hb. cbn [bind]. rewrite Hf. cbn [bind].
  now apply silent_tail.
Qed.


Lemma main_silent_file_witness :
  snd (load_audio (8000%Z, FloatData (Arr1 [0; 0; 0]))) <> [] /\
  Forall (fun x => x = 0)
    (snd (load_audio (8000%Z, FloatData (Arr1 [0; 0; 0])))) /\
  8000%Z <> 0%Z /\
  butter unit_filter 5 (20 / (0.5 * IZR 8000)) (6000 / (0.5 * IZR 8000)) =
    Ok ([1], [1]) /\
  filtfilt unit_filter [1] [1]
    (snd (load_audio (8000%Z, FloatData (Arr1 [0; 0; 0])))) = Ok [0; 0; 0] /\
  Forall (fun x => x = 0) [0; 0; 0] /\
  length [0; 0; 0] =
    length (snd (load_audio (8000%Z, FloatData (Arr1 [0; 0; 0])))) /\
  run unit_filter (main (8000%Z, FloatData (Arr1 [0; 0; 0]))) =
    Ok (8000%Z, Unspecified (length [0; 0; 0])).
Proof.
  assert (Hz : Forall (fun x => x = 0) [0; 0; 0]) by (repeat constructor).
  split; [discriminate|]. split; [exact Hz|]. split; [lia|].
  split; [reflexivity|]. split; [reflexivity|]. split; [exact Hz|].
  split; [reflexivity|].
  apply (main_silent_file unit_filter (8000%Z, FloatData (Arr1 [0; 0; 0]))
           ([1], [1]) [0; 0; 0]);
    try reflexivity; try discriminate; try exact Hz.
Defined.


(** X25: The cut-offs [main] gives to the design are in order and above zero
    for every file it gets that far with, and the upper one is below the
    Nyquist frequency exactly when the file is sampled above 12000 Hz. *)
Theorem main_cutoffs (file : Z * wav_data) :
  snd (load_audio file) <> [] -> (0 < fst file)%Z ->
  exists low high k,
    main file = Butter 5 low high k /\
    0 < low /\ low < high /\
    (high < 1 <-> (12000 < fst file)%Z).
Proof.
  destruct (load_audio file) as [sample_rate audio_data] eqn:Hload.
  assert (Hrate : fst file = sample_rate).
  { rewrite <- load_audio_rate, Hload. reflexivity. }
  rewrite Hrate. cbn [snd]. intros Hne Hpos.
  destruct (main_reaches_filter file sample_rate audio_data Hload Hne
              ltac:(lia)) as (fs & ms & f & demod & _ & _ & _ & _ & Hmain).
  do 3 eexists. split; [exact Hmain|].
  assert (Hr : 0 < IZR sample_rate) by (now apply IZR_lt).
  set (nyq := 0.5 * IZR sample_rate).
  assert (Hn : 0 < nyq) by (subst nyq; lra).
  assert (Hdiv : forall y, y / nyq * nyq = y) by (intros; field; lra).
  split; [|split; [|split]].
  - apply (Rmult_lt_reg_r nyq); [exact Hn|]. rewrite Hdiv. lra.
  - apply (Rmult_lt_reg_r nyq); [exact Hn|]. rewrite !Hdiv. lra.
  - intros Hhigh. apply (Rmult_lt_compat_r nyq) in Hhigh; [|exact Hn].
    rewrite Hdiv in Hhigh. apply lt_IZR. subst nyq. lra.
  - intros Hlt. apply IZR_lt in Hlt.
    apply (Rmult_lt_reg_r nyq); [exact Hn|]. rewrite Hdiv. subst nyq. lra.
Qed.

Lemma main_cutoffs_witness :
  snd (load_audio (44100%Z, IntData int16 (Arr1 [12; -7; 3]%Z))) <> [] /\
  (0 < fst (44100%Z, IntData int16 (Arr1 [12; -7; 3]%Z)))%Z /\
  exists low high k,
    main (44100%Z, IntData int16 (Arr1 [12; -7; 3]%Z)) = Butter 5 low high k /\
    0 < low /\ low < high /\
    (high < 1 <->
     (12000 < fst (44100%Z, IntData int16 (Arr1 [12; -7; 3]%Z)))%Z).
Proof.
  split; [discriminate|]. split; [simpl; lia|].
  apply main_cutoffs; [discriminate | simpl; lia].
Defined.
